(** * The drag-and-drop board of [src/app/page.tsx]

    A shallow embedding of the state held by [TaskDashboard] and of its
    three drag handlers ([handleDragStart], [handleDragOver],
    [handleDragEnd]), together with the properties of the board that the
    specification states about them.

    The component keeps its state in React hooks; every handler reads the
    state of the current render and schedules an update.  Events are
    delivered one at a time and the component re-renders between two
    events, so a handler is a function from the state before the event to
    the state after it. *)

From stdpp Require Import base option list strings pretty.
From Stdlib Require Import ZArith.

Open Scope Z_scope.

(** ** Data model *)

(** [priority: 'low' | 'medium' | 'high'] *)
Inductive Priority := Low | Medium | High.

(** [status: 'todo' | 'done' | 'failed' | 'in-progress'] *)
Inductive Status := Todo | Done | Failed | InProgress.

Global Instance Priority_eq_dec : EqDecision Priority.
Proof. solve_decision. Defined.

Global Instance Status_eq_dec : EqDecision Status.
Proof. solve_decision. Defined.

(** The string each member of the [status] union is at run time. *)
Definition status_id (c : Status) : string :=
  match c with
  | Todo => "todo"
  | Done => "done"
  | Failed => "failed"
  | InProgress => "in-progress"
  end.

(** [type Task] *)
Record Task := mkTask {
  id : string;
  title : string;
  description : string;
  priority : Priority;
  status : Status;
  timestamp : option string
}.

Global Instance Task_eq_dec : EqDecision Task.
Proof. solve_decision. Defined.

(** The three [useState] cells of [TaskDashboard]. *)
Record State := mkState {
  tasks : list Task;
  activeId : option string;
  editingStatus : option Status
}.

(** ** JavaScript array primitives used by the handlers *)

Section Arrays.
Context {T : Type}.

(** [array.find(p)]: the first element satisfying [p], if any. *)
Definition find (P : T → Prop) `{∀ x, Decision (P x)} (array : list T) : option T :=
  snd <$> list_find P array.

(** [array.findIndex(p)]: the index of that element, [-1] if none. *)
Definition findIndex (P : T → Prop) `{∀ x, Decision (P x)} (array : list T) : Z :=
  match list_find P array with
  | Some (i, _) => Z.of_nat i
  | None => -1
  end.

(** The position [splice] works at: a negative [start] counts from the
    end, and the result is clamped to [0 .. length]. *)
Definition splice_start (len : nat) (start : Z) : nat :=
  Z.to_nat (if bool_decide (start < 0)
            then Z.max (Z.of_nat len + start) 0
            else Z.min start (Z.of_nat len)).

(** [array.splice(start, 1)]: the removed elements (at most one) and
    the array that is left. *)
Definition splice_remove (array : list T) (start : Z) : list T * list T :=
  let k := splice_start (length array) start in
  (take 1 (drop k array), delete k array).

(** [array.splice(start, 0, item)]: the array after the insertion. *)
Definition splice_insert (array : list T) (start : Z) (item : T) : list T :=
  let k := splice_start (length array) start in
  take k array ++ item :: drop k array.

(** [arrayMove] of [@dnd-kit/sortable], which [handleDragEnd] calls:
<<
    const newArray = array.slice();
    newArray.splice(to < 0 ? newArray.length + to : to, 0,
                    newArray.splice(from, 1)[0]);
    return newArray;
>>
    The first argument is evaluated before the inner [splice] removes
    an element, so [newArray.length] is the length of [array].  When
    the inner [splice] removes nothing, [[0]] of its result is
    [undefined] and the outcome is not an array of [T]: [None]. *)
Definition arrayMove (array : list T) (from to : Z) : option (list T) :=
  let start := if bool_decide (to < 0) then Z.of_nat (length array) + to else to in
  let '(removed, newArray) := splice_remove array from in
  match removed !! 0%nat with
  | Some item => Some (splice_insert newArray start item)
  | None => None
  end.
End Arrays.

(** ** Container resolution *)

(** [findContainer]: the status of the first task whose id is [i]. *)
Definition findContainer (ts : list Task) (i : string) : option Status :=
  status <$> find (λ task, id task = i) ts.

(** The test [over.id === 'todo' || over.id === 'done' ||
    over.id === 'failed' || over.id === 'in-progress'], giving the member
    of the union that the string is. *)
Definition container_of_id (i : string) : option Status :=
  if decide (i = "todo") then Some Todo
  else if decide (i = "done") then Some Done
  else if decide (i = "failed") then Some Failed
  else if decide (i = "in-progress") then Some InProgress
  else None.

(** [overContainer] of [handleDragOver] and [handleDragEnd]: the id
    itself when it is a container id, [findContainer] otherwise. *)
Definition resolveOver (ts : list Task) (overId : string) : option Status :=
  match container_of_id overId with
  | Some c => Some c
  | None => findContainer ts overId
  end.

(** ** The handlers *)

(** [taskToMove.status = overContainer] *)
Definition setStatus (c : Status) (t : Task) : Task :=
  {| id := id t; title := title t; description := description t;
     priority := priority t; status := c; timestamp := timestamp t |}.

(** The updater passed to [setTasks] on a change of container: copy the
    array, find the first task with the active id and overwrite its
    status; the array is returned as it is when there is none. *)
Definition moveAcross (ts : list Task) (a : string) (c : Status) : list Task :=
  match list_find (λ task, id task = a) ts with
  | Some (i, taskToMove) => <[i := setStatus c taskToMove]> ts
  | None => ts
  end.

Definition setTasks (st : State) (ts : list Task) : State :=
  {| tasks := ts; activeId := activeId st; editingStatus := editingStatus st |}.

Definition setActiveId (st : State) (a : option string) : State :=
  {| tasks := tasks st; activeId := a; editingStatus := editingStatus st |}.

Definition handleDragStart (st : State) (active : string) : State :=
  setActiveId st (Some active).

Definition handleDragOver (st : State) (active : string) (over : option string) : State :=
  match over with
  | None => st
  | Some overId =>
      match findContainer (tasks st) active, resolveOver (tasks st) overId with
      | Some activeContainer, Some overContainer =>
          if decide (activeContainer = overContainer) then st
          else setTasks st (moveAcross (tasks st) active overContainer)
      | _, _ => st
      end
  end.

(** The same-container branch of [handleDragEnd]: both indices are taken
    in the whole [tasks] array. *)
Definition reorder (ts : list Task) (a overId : string) : list Task :=
  let activeIndex := findIndex (λ task, id task = a) ts in
  let overIndex := findIndex (λ task, id task = overId) ts in
  if decide (activeIndex ≠ overIndex)
  then default ts (arrayMove ts activeIndex overIndex)
  else ts.

Definition handleDragEnd (st : State) (active : string) (over : option string) : State :=
  match over with
  | None => setActiveId st None
  | Some overId =>
      match findContainer (tasks st) active, resolveOver (tasks st) overId with
      | Some activeContainer, Some overContainer =>
          if decide (activeContainer ≠ overContainer)
          then setActiveId (setTasks st (moveAcross (tasks st) active overContainer)) None
          else setActiveId (setTasks st (reorder (tasks st) active overId)) None
      | _, _ => setActiveId st None
      end
  end.

(** [handleDelete] *)
Definition handleDelete (st : State) (i : string) : State :=
  setTasks st (filter (λ task, id task ≠ i) (tasks st)).

(** ** Gestures *)

Inductive Event :=
| DragStart (active : string)
| DragOver (active : string) (over : option string)
| DragEnd (active : string) (over : option string).

Definition step (st : State) (ev : Event) : State :=
  match ev with
  | DragStart a => handleDragStart st a
  | DragOver a over => handleDragOver st a over
  | DragEnd a over => handleDragEnd st a over
  end.

Definition run (st : State) (evs : list Event) : State := foldl step st evs.

(** ** Example boards *)

Definition T (i : string) (c : Status) : Task :=
  {| id := i; title := i; description := EmptyString; priority := Medium;
     status := c; timestamp := None |}.

Definition board (ts : list Task) : State :=
  {| tasks := ts; activeId := None; editingStatus := None |}.

(** ** Vocabulary of the specification *)

(** Reinserting [x] so that it sits at index [j]. *)
Definition insert_at {A} (j : nat) (x : A) (l : list A) : list A :=
  take j l ++ x :: drop j l.

(** What the specification says a drop inside the active item's own
    container does: both ids have an index in the whole sequence, and the
    active item is removed and reinserted at the index of the target. *)
Definition reorders_at_target (st : State) (a overId : string) : Prop :=
  ∃ i j x y,
    list_find (λ task, id task = a) (tasks st) = Some (i, x) ∧
    list_find (λ task, id task = overId) (tasks st) = Some (j, y) ∧
    tasks (handleDragEnd st a (Some overId)) = insert_at j x (delete i (tasks st)).

(** The part of a gesture before the drop: start, then hover over each
    of [overs]. *)
Definition hovering (a : string) (overs : list string) : list Event :=
  DragStart a :: ((λ o, DragOver a (Some o)) <$> overs).

(** A whole gesture on one item. *)
Definition gesture (a : string) (overs : list string) (drop : option string) : list Event :=
  hovering a overs ++ [DragEnd a drop].

(** What the specification says of a drop whose target container is not
    the container the active item had before the gesture: the status is
    reassigned once more and the item keeps its index. *)
Definition recommits_move (st0 : State) (a : string) (overs : list string) (o : string) : Prop :=
  let st1 := run st0 (hovering a overs) in
  let st2 := handleDragEnd st1 a (Some o) in
  ∀ origin oc,
    findContainer (tasks st0) a = Some origin →
    resolveOver (tasks st1) o = Some oc →
    origin ≠ oc →
    tasks st2 = moveAcross (tasks st1) a oc ∧
    findIndex (λ task, id task = a) (tasks st2)
    = findIndex (λ task, id task = a) (tasks st1).

(** A task with its status forgotten: what a move may not change. *)
Definition unclassified (t : Task) : Task := setStatus Todo t.

(** ** The rest of the component *)

(** [todoTasks], [inProgressTasks] and [doneTasks]: what each [Column]
    is given to display.  No column is rendered for [failed]. *)
Definition column (c : Status) (ts : list Task) : list Task :=
  filter (λ task, status task = c) ts.

Definition todoTasks (ts : list Task) : list Task := column Todo ts.
Definition inProgressTasks (ts : list Task) : list Task := column InProgress ts.
Definition doneTasks (ts : list Task) : list Task := column Done ts.

(** The ids of the three [<Column>] elements of [TaskDashboard]. *)
Definition columns : list Status := [Todo; InProgress; Done].

(** [renderTaskOverlay]: the task whose card is drawn, [None] where the
    function returns [null].  The markup is a function of that task. *)
Definition renderTaskOverlay (i : string) (ts : list Task) : option Task :=
  find (λ task, id task = i) ts.

(** The child of [<DragOverlay>]:
    [activeId ? renderTaskOverlay(activeId, tasks) : null]; the empty
    string is falsy. *)
Definition dragOverlay (st : State) : option Task :=
  match activeId st with
  | Some a => if decide (a = EmptyString) then None else renderTaskOverlay a (tasks st)
  | None => None
  end.

(** [Omit<Task, 'id' | 'timestamp'>] *)
Record TaskData := mkTaskData {
  data_title : string;
  data_description : string;
  data_priority : Priority;
  data_status : Status
}.

(** What [handleSaveNewTask] reads from the clock: [Date.now()], and of
    [new Date()] the short month name in the default locale,
    [getDate()], [getHours()] and [getMinutes()]. *)
Record Clock := mkClock {
  now_ms : Z;
  now_month : string;
  getDate : nat;
  getHours : nat;
  getMinutes : nat
}.

Fixpoint string_rep (n : nat) (s : string) : string :=
  match n with
  | O => EmptyString
  | S n => s +:+ string_rep n s
  end.

(** [s.padStart(targetLength, padString)] *)
Definition padStart (s : string) (targetLength : nat) (padString : string) : string :=
  let len := String.length s in
  if decide (targetLength ≤ len)%nat then s
  else if decide (padString = EmptyString) then s
  else String.substring 0 (targetLength - len)
         (string_rep (targetLength - len) padString) +:+ s.

(** The [timestamp] template of [handleSaveNewTask]; [toString] of a
    number that is an integer is its decimal writing, [pretty]. *)
Definition formatTimestamp (now : Clock) : string :=
  let hours := padStart (pretty (getHours now)) 2 "0" in
  let minutes := padStart (pretty (getMinutes now)) 2 "0" in
  now_month now +:+ " " +:+ pretty (getDate now) +:+ ", " +:+ hours +:+ ":" +:+ minutes.

(** [newTask] of [handleSaveNewTask] *)
Definition newTask (taskData : TaskData) (now : Clock) : Task :=
  {| id := pretty (now_ms now);
     title := data_title taskData;
     description := data_description taskData;
     priority := data_priority taskData;
     status := data_status taskData;
     timestamp := Some (formatTimestamp now) |}.

(** [handleSaveNewTask]: [setTasks([...tasks, newTask])] and
    [setEditingStatus(null)]. *)
Definition handleSaveNewTask (st : State) (taskData : TaskData) (now : Clock) : State :=
  {| tasks := tasks st ++ [newTask taskData now];
     activeId := activeId st;
     editingStatus := None |}.

(** [onSave] of the [Column] with id [columnId]: the status of the new
    task is overwritten with the id of the column.  The form calls it
    only for a title that is not blank; that test is not part of it. *)
Definition Column_onSave (st : State) (columnId : Status) (task : TaskData) (now : Clock) : State :=
  handleSaveNewTask st
    {| data_title := data_title task; data_description := data_description task;
       data_priority := data_priority task; data_status := columnId |} now.

(** [onAddTask], which is [setEditingStatus] *)
Definition setEditingStatus (st : State) (c : option Status) : State :=
  {| tasks := tasks st; activeId := activeId st; editingStatus := c |}.

(** Everything the user can do to the board. *)
Inductive Action :=
| Drag (ev : Event)
| Delete (i : string)
| AddTask (c : option Status)
| SaveTask (columnId : Status) (task : TaskData) (now : Clock).

Definition dispatch (st : State) (act : Action) : State :=
  match act with
  | Drag ev => step st ev
  | Delete i => handleDelete st i
  | AddTask c => setEditingStatus st c
  | SaveTask columnId task now => Column_onSave st columnId task now
  end.

(** No task of the sequence is in the [failed] state. *)
Definition no_failed (ts : list Task) : Prop :=
  Forall (λ task, status task ≠ Failed) ts.

(** The action comes from what is on screen: a drag is never over a
    droppable called [failed], and a task is saved from one of the three
    columns. *)
Definition on_screen (act : Action) : Prop :=
  match act with
  | Drag (DragOver _ over) | Drag (DragEnd _ over) => over ≠ Some "failed"
  | SaveTask columnId _ _ => columnId ∈ columns
  | _ => True
  end.

(** The id a save would give is not yet on the board. *)
Definition fresh_id (st : State) (act : Action) : Prop :=
  match act with
  | SaveTask _ _ now => pretty (now_ms now) ∉ id <$> tasks st
  | _ => True
  end.

(** * Properties *)

(** Membership and non-membership in a list that is written out. *)
Ltac list_mem := by repeat constructor.
Ltac list_not_mem :=
  let H := fresh in
  intros H; repeat (apply elem_of_cons in H as [H|H]; [done|]);
  by apply elem_of_nil in H.

(** ** Arrays *)

Section ArrayFacts.
Context {A : Type}.
Implicit Types (l : list A) (x : A) (i j : nat).

Lemma splice_start_index (len : nat) i :
  (i ≤ len)%nat → splice_start len (Z.of_nat i) = i.
Proof.
  intros Hi. unfold splice_start.
  rewrite bool_decide_eq_false_2 by lia. lia.
Qed.

Lemma splice_start_le (len : nat) (start : Z) :
  (splice_start len start ≤ len)%nat.
Proof. unfold splice_start. case_bool_decide; lia. Qed.

Lemma insert_at_lookup j x l :
  (j ≤ length l)%nat → insert_at j x l !! j = Some x.
Proof.
  intros Hj. unfold insert_at.
  rewrite list_lookup_middle; [done|]. by rewrite length_take_le.
Qed.

Lemma insert_at_delete j x l :
  (j ≤ length l)%nat → delete j (insert_at j x l) = l.
Proof.
  intros Hj. unfold insert_at. rewrite delete_take_drop.
  rewrite take_app_length' by (by rewrite length_take_le).
  rewrite cons_middle, app_assoc.
  rewrite drop_app_length' by (rewrite length_app, length_take_le; simpl; lia).
  apply take_drop.
Qed.

Lemma insert_at_Permutation j x l : insert_at j x l ≡ₚ x :: l.
Proof.
  unfold insert_at. rewrite <- Permutation_middle. by rewrite take_drop.
Qed.

Lemma insert_at_delete_same i x l :
  l !! i = Some x → insert_at i x (delete i l) = l.
Proof.
  intros Hx. unfold insert_at. rewrite delete_take_drop.
  assert (Hlen : (i < length l)%nat) by (by eapply lookup_lt_Some).
  rewrite take_app_length' by (rewrite length_take_le; lia).
  rewrite drop_app_length' by (rewrite length_take_le; lia).
  by apply take_drop_middle.
Qed.

(** [splice(from, 1)] on an index of the array removes that element. *)
Lemma splice_remove_index l i x :
  l !! i = Some x → splice_remove l (Z.of_nat i) = ([x], delete i l).
Proof.
  intros Hx. unfold splice_remove.
  assert (Hlen : (i < length l)%nat) by (by eapply lookup_lt_Some).
  rewrite splice_start_index by lia.
  by rewrite (drop_S l x i Hx).
Qed.

(** Moving from an index to an index: remove, then reinsert there. *)
Lemma arrayMove_index l i j x :
  l !! i = Some x → (j < length l)%nat →
  arrayMove l (Z.of_nat i) (Z.of_nat j) = Some (insert_at j x (delete i l)).
Proof.
  intros Hx Hj. unfold arrayMove.
  rewrite (splice_remove_index l i x Hx). simpl.
  rewrite bool_decide_eq_false_2 by lia.
  unfold splice_insert, insert_at.
  assert (Hlen : (i < length l)%nat) by (by eapply lookup_lt_Some).
  rewrite splice_start_index; [done|]. rewrite length_delete by eauto. lia.
Qed.

(** Moving to [-1], the index [findIndex] gives for an id that is not
    in the array: the element goes to the end. *)
Lemma arrayMove_minus_one l i x :
  l !! i = Some x →
  arrayMove l (Z.of_nat i) (-1) = Some (delete i l ++ [x]).
Proof.
  intros Hx. unfold arrayMove.
  rewrite (splice_remove_index l i x Hx). simpl.
  assert (Hlen : (i < length l)%nat) by (by eapply lookup_lt_Some).
  unfold splice_insert.
  assert (Hd : length (delete i l) = (length l - 1)%nat)
    by (rewrite length_delete by eauto; lia).
  replace (Z.of_nat (length l) + -1) with (Z.of_nat (length (delete i l))) by lia.
  rewrite splice_start_index by lia.
  by rewrite take_ge, drop_ge by lia.
Qed.

Lemma arrayMove_same l i x :
  l !! i = Some x → arrayMove l (Z.of_nat i) (Z.of_nat i) = Some l.
Proof.
  intros Hx. rewrite (arrayMove_index l i i x Hx) by (by eapply lookup_lt_Some).
  by rewrite insert_at_delete_same.
Qed.

(** From an index of the array the move is defined, wherever it goes. *)
Lemma arrayMove_is_Some l i x (to : Z) :
  l !! i = Some x → is_Some (arrayMove l (Z.of_nat i) to).
Proof.
  intros Hx. unfold arrayMove.
  rewrite (splice_remove_index l i x Hx). simpl. eauto.
Qed.

(** Whatever the two numbers are, a move that yields an array yields a
    rearrangement of the given one. *)
Lemma arrayMove_Permutation l (from to : Z) l' :
  arrayMove l from to = Some l' → l' ≡ₚ l.
Proof.
  unfold arrayMove, splice_remove.
  set (k := splice_start (length l) from).
  destruct (take 1 (drop k l) !! 0%nat) as [x|] eqn:Hx; [|done].
  intros [= <-].
  apply lookup_take_Some in Hx as [Hx _]. rewrite lookup_drop in Hx.
  replace (k + 0)%nat with k in Hx by lia.
  unfold splice_insert.
  rewrite (insert_at_Permutation _ x (delete k l) : take _ _ ++ _ ≡ₚ _).
  symmetry. by apply delete_Permutation.
Qed.
End ArrayFacts.

(** ** Lookups by id and the status update *)

Section BoardFacts.
Implicit Types (ts : list Task) (t : Task) (a o : string) (c : Status).

Lemma setStatus_same t : setStatus (status t) t = t.
Proof. by destruct t. Qed.

Lemma setStatus_twice c c' t : setStatus c (setStatus c' t) = setStatus c t.
Proof. done. Qed.

Lemma unclassified_setStatus c t : unclassified (setStatus c t) = unclassified t.
Proof. done. Qed.

Lemma findContainer_Some ts a c :
  findContainer ts a = Some c ↔
  ∃ i t, list_find (λ task, id task = a) ts = Some (i, t) ∧ status t = c.
Proof.
  unfold findContainer, find.
  destruct (list_find _ ts) as [[i t]|]; simpl; split.
  - intros [= <-]. eauto.
  - by intros (? & ? & [= <- <-] & <-).
  - done.
  - by intros (? & ? & ? & _).
Qed.

Lemma findContainer_None ts a :
  findContainer ts a = None ↔ list_find (λ task, id task = a) ts = None.
Proof.
  unfold findContainer, find.
  by destruct (list_find _ ts) as [[i t]|].
Qed.

Lemma findIndex_found ts a i t :
  list_find (λ task, id task = a) ts = Some (i, t) →
  findIndex (λ task, id task = a) ts = Z.of_nat i.
Proof. unfold findIndex. by intros ->. Qed.

Lemma findIndex_missing ts a :
  list_find (λ task, id task = a) ts = None →
  findIndex (λ task, id task = a) ts = -1.
Proof. unfold findIndex. by intros ->. Qed.

Lemma moveAcross_found ts a c i t :
  list_find (λ task, id task = a) ts = Some (i, t) →
  moveAcross ts a c = <[i := setStatus c t]> ts.
Proof. unfold moveAcross. by intros ->. Qed.

(** The update is seen by no projection other than [status]. *)
Lemma moveAcross_unclassified ts a c :
  unclassified <$> moveAcross ts a c = unclassified <$> ts.
Proof.
  unfold moveAcross.
  destruct (list_find _ ts) as [[i t]|] eqn:Hfind; [|done].
  apply list_find_Some in Hfind as (Hi & _ & _).
  rewrite list_fmap_insert, unclassified_setStatus.
  apply list_insert_id. by rewrite list_lookup_fmap, Hi.
Qed.

Lemma moveAcross_ids ts a c : id <$> moveAcross ts a c = id <$> ts.
Proof.
  unfold moveAcross.
  destruct (list_find _ ts) as [[i t]|] eqn:Hfind; [|done].
  apply list_find_Some in Hfind as (Hi & _ & _).
  rewrite list_fmap_insert. simpl.
  apply list_insert_id. by rewrite list_lookup_fmap, Hi.
Qed.

(** After the update the active id is still found first at the same
    index. *)
Lemma moveAcross_find ts a c i t :
  list_find (λ task, id task = a) ts = Some (i, t) →
  list_find (λ task, id task = a) (moveAcross ts a c) = Some (i, setStatus c t).
Proof.
  intros Hfind. rewrite (moveAcross_found _ _ _ _ _ Hfind).
  apply list_find_Some in Hfind as (Hi & Hid & Hleast).
  apply list_find_Some. split_and!.
  - apply list_lookup_insert_eq. by eapply lookup_lt_Some.
  - done.
  - intros j y Hj Hlt. rewrite list_lookup_insert_ne in Hj by lia. eauto.
Qed.

(** A task found under another id is not the one that was updated. *)
Lemma moveAcross_find_other ts a o c :
  a ≠ o →
  list_find (λ task, id task = o) (moveAcross ts a c)
  = list_find (λ task, id task = o) ts.
Proof.
  intros Hne. unfold moveAcross.
  destruct (list_find (λ task, id task = a) ts) as [[i t]|] eqn:Hfind; [|done].
  apply list_find_Some in Hfind as (Hi & Hid & _).
  destruct (list_find (λ task, id task = o) ts) as [[j y]|] eqn:Ho.
  - apply list_find_Some in Ho as (Hj & Hjd & Hleast).
    assert (i ≠ j) by (intros ->; congruence).
    apply list_find_Some. split_and!; [by rewrite list_lookup_insert_ne|done|].
    intros k z Hk Hlt.
    destruct (decide (i = k)) as [<-|].
    + rewrite list_lookup_insert_eq in Hk by (by eapply lookup_lt_Some).
      injection Hk as <-. simpl. congruence.
    + rewrite list_lookup_insert_ne in Hk by done. eauto.
  - apply list_find_None. rewrite list_find_None in Ho.
    rewrite Forall_lookup in Ho |- *. intros k z Hk.
    destruct (decide (i = k)) as [<-|].
    + rewrite list_lookup_insert_eq in Hk by (by eapply lookup_lt_Some).
      injection Hk as <-. simpl. congruence.
    + rewrite list_lookup_insert_ne in Hk by done. eauto.
Qed.

Lemma moveAcross_idempotent ts a c :
  moveAcross (moveAcross ts a c) a c = moveAcross ts a c.
Proof.
  destruct (list_find (λ task, id task = a) ts) as [[i t]|] eqn:Hfind.
  - rewrite (moveAcross_found _ _ _ _ _ (moveAcross_find _ _ c _ _ Hfind)).
    rewrite (moveAcross_found _ _ _ _ _ Hfind).
    by rewrite list_insert_insert_eq.
  - unfold moveAcross. by rewrite !Hfind.
Qed.

Lemma moveAcross_same_container ts a c :
  findContainer ts a = Some c → moveAcross ts a c = ts.
Proof.
  intros (i & t & Hfind & <-)%findContainer_Some.
  rewrite (moveAcross_found _ _ _ _ _ Hfind), setStatus_same.
  apply list_insert_id. by apply list_find_Some in Hfind as (? & _).
Qed.

Lemma findContainer_moveAcross ts a c :
  is_Some (findContainer ts a) → findContainer (moveAcross ts a c) a = Some c.
Proof.
  intros [c' (i & t & Hfind & _)%findContainer_Some].
  apply findContainer_Some. eauto using moveAcross_find.
Qed.

Lemma container_of_id_status_id o c :
  container_of_id o = Some c ↔ status_id c = o.
Proof.
  unfold container_of_id. split.
  - repeat case_decide; by intros [= <-].
  - intros <-. by destruct c.
Qed.

(** The same-container branch only rearranges. *)
Lemma reorder_Permutation ts a o : reorder ts a o ≡ₚ ts.
Proof.
  unfold reorder. case_decide; [|done].
  destruct (arrayMove _ _ _) as [l'|] eqn:Hmove; [|done].
  simpl. by eapply arrayMove_Permutation.
Qed.

(** With the active id in the array the move is always defined: the
    fallback in [reorder] is never taken by [handleDragEnd], which
    reaches [reorder] only after [findContainer] has found that id. *)
Lemma reorder_defined ts a o :
  is_Some (findContainer ts a) →
  is_Some (arrayMove ts (findIndex (λ task, id task = a) ts)
                        (findIndex (λ task, id task = o) ts)).
Proof.
  intros [c (i & t & Hfind & _)%findContainer_Some].
  rewrite (findIndex_found _ _ _ _ Hfind).
  apply list_find_Some in Hfind as (Hi & _).
  by eapply arrayMove_is_Some.
Qed.

Lemma reorder_item ts a o i x j y :
  list_find (λ task, id task = a) ts = Some (i, x) →
  list_find (λ task, id task = o) ts = Some (j, y) →
  reorder ts a o = insert_at j x (delete i ts).
Proof.
  intros Ha Ho. unfold reorder.
  rewrite (findIndex_found _ _ _ _ Ha), (findIndex_found _ _ _ _ Ho).
  apply list_find_Some in Ha as (Hi & _). apply list_find_Some in Ho as (Hj & _).
  case_decide as Hne.
  - rewrite (arrayMove_index ts i j x Hi) by (by eapply lookup_lt_Some). done.
  - assert (i = j) as <- by lia.
    by rewrite insert_at_delete_same.
Qed.

(** A drop on the empty space of the item's own column: the target id
    names no task, and the item goes to the end of the sequence. *)
Lemma reorder_container_space ts a o i x :
  list_find (λ task, id task = a) ts = Some (i, x) →
  list_find (λ task, id task = o) ts = None →
  reorder ts a o = delete i ts ++ [x].
Proof.
  intros Ha Ho. unfold reorder.
  rewrite (findIndex_found _ _ _ _ Ha), (findIndex_missing _ _ Ho).
  apply list_find_Some in Ha as (Hi & _).
  rewrite decide_True by lia.
  by rewrite (arrayMove_minus_one ts i x Hi).
Qed.
End BoardFacts.

(** ** Container resolution *)

(** C4. Container resolution returns the target id itself when it is one
    of the container ids [todo], [in-progress], [done], [failed];
    otherwise the status of the item whose id is the target id, the first
    such item of the sequence, when there is one; otherwise nothing. *)
Theorem resolveOver_spec (ts : list Task) (targetId : string) :
  (targetId ∈ ["todo"; "in-progress"; "done"; "failed"] →
     status_id <$> resolveOver ts targetId = Some targetId) ∧
  (targetId ∉ ["todo"; "in-progress"; "done"; "failed"] →
     (∀ i t, list_find (λ task, id task = targetId) ts = Some (i, t) →
             resolveOver ts targetId = Some (status t)) ∧
     (∀ t, NoDup (id <$> ts) → t ∈ ts → id t = targetId →
             resolveOver ts targetId = Some (status t)) ∧
     ((∀ t, t ∈ ts → id t ≠ targetId) → resolveOver ts targetId = None)).
Proof.
  split.
  - intros Hin. unfold resolveOver.
    repeat (apply elem_of_cons in Hin as [->|Hin]); try done.
    by apply elem_of_nil in Hin.
  - intros Hout.
    assert (Hc : container_of_id targetId = None).
    { destruct (container_of_id targetId) as [c|] eqn:Hc; [|done].
      apply container_of_id_status_id in Hc as <-.
      exfalso. apply Hout. destruct c; simpl; list_mem. }
    unfold resolveOver. rewrite Hc.
    assert (Hfirst : ∀ i t, list_find (λ task, id task = targetId) ts = Some (i, t) →
                            findContainer ts targetId = Some (status t)).
    { intros i t Hfind. apply findContainer_Some. eauto. }
    split_and!.
    + done.
    + intros t Hnd Ht Hid.
      destruct (list_find_elem_of (λ task, id task = targetId) ts t Ht Hid)
        as [[i t'] Hfind].
      rewrite (Hfirst _ _ Hfind). f_equal. f_equal.
      apply list_find_Some in Hfind as (Hi & Hid' & _).
      apply list_elem_of_lookup in Ht as [j Hj].
      assert (i = j) as <-; [|congruence].
      eapply NoDup_lookup; [done| |]; rewrite list_lookup_fmap.
      * by rewrite Hi.
      * rewrite Hj. simpl. congruence.
    + intros Hnone. apply findContainer_None, list_find_None, Forall_forall. done.
Qed.

Lemma resolveOver_spec_witness :
  let ts := [T "T1" Todo; T "T2" InProgress; T "done" Failed] in
  status_id <$> resolveOver ts "done" = Some "done" ∧
  resolveOver ts "T2" = Some InProgress ∧
  resolveOver ts "T9" = None.
Proof.
  intros ts. split_and!.
  - apply (proj1 (resolveOver_spec ts "done")). list_mem.
  - refine (proj1 (proj2 (proj2 (resolveOver_spec ts "T2") _)) (T "T2" InProgress) _ _ _).
    + list_not_mem.
    + apply (bool_decide_unpack _). vm_compute. exact I.
    + list_mem.
    + reflexivity.
  - apply (proj2 (resolveOver_spec ts "T9")); [list_not_mem|].
    intros t Ht. repeat (apply elem_of_cons in Ht as [->|Ht]); try done.
    by apply elem_of_nil in Ht.
Defined.

(** ** Hovering: [handleDragOver] *)

(** C1. When the container of the active item and the resolved container
    of the target differ, [handleDragOver] sets the status of the active
    item to the target container and leaves it at its index in the
    backing sequence: the entry at that index has the target container as
    its status and every other field as before, the active id resolves
    to the target container, the sequence keeps its length, every other
    entry is untouched, and the drag session is as before. *)
Theorem handleDragOver_cross_container
    (st : State) (a o : string) (i : nat) (t : Task) (oc : Status) :
  list_find (λ task, id task = a) (tasks st) = Some (i, t) →
  resolveOver (tasks st) o = Some oc →
  status t ≠ oc →
  let st' := handleDragOver st a (Some o) in
  tasks st' = <[i := setStatus oc t]> (tasks st) ∧
  tasks st' !! i = Some (setStatus oc t) ∧
  (∃ t', tasks st' !! i = Some t' ∧
         status t' = oc ∧
         id t' = id t ∧ title t' = title t ∧ description t' = description t ∧
         priority t' = priority t ∧ timestamp t' = timestamp t) ∧
  findContainer (tasks st') a = Some oc ∧
  status_id <$> findContainer (tasks st') a = status_id <$> resolveOver (tasks st) o ∧
  (∀ j, j ≠ i → tasks st' !! j = tasks st !! j) ∧
  length (tasks st') = length (tasks st) ∧
  id <$> tasks st' = id <$> tasks st ∧
  list_find (λ task, id task = a) (tasks st') = Some (i, setStatus oc t) ∧
  findIndex (λ task, id task = a) (tasks st')
  = findIndex (λ task, id task = a) (tasks st) ∧
  activeId st' = activeId st ∧
  editingStatus st' = editingStatus st.
Proof.
  intros Hfind Hover Hne st'.
  assert (Ha : findContainer (tasks st) a = Some (status t))
    by (apply findContainer_Some; eauto).
  assert (Hst' : st' = setTasks st (moveAcross (tasks st) a oc)).
  { unfold st', handleDragOver. rewrite Ha, Hover. by rewrite decide_False. }
  rewrite Hst'. simpl.
  pose proof (moveAcross_find _ _ oc _ _ Hfind) as Hfind'.
  assert (Hi' : moveAcross (tasks st) a oc !! i = Some (setStatus oc t))
    by (by apply list_find_Some in Hfind' as (? & _)).
  assert (Hc' : findContainer (moveAcross (tasks st) a oc) a = Some oc).
  { apply findContainer_Some. exists i, (setStatus oc t). split; [done|].
    reflexivity. }
  rewrite <- (moveAcross_found _ _ oc _ _ Hfind).
  split_and!; try done.
  - exists (setStatus oc t). split; [done|]. split_and!; reflexivity.
  - by rewrite Hc', Hover.
  - intros j Hj. rewrite (moveAcross_found _ _ oc _ _ Hfind).
    by rewrite list_lookup_insert_ne.
  - rewrite (moveAcross_found _ _ oc _ _ Hfind). apply length_insert.
  - apply moveAcross_ids.
  - by rewrite (findIndex_found _ _ _ _ Hfind'), (findIndex_found _ _ _ _ Hfind).
Qed.

(** Scenario A of the specification, obtained from the theorem, and a
    hover over the empty space of another column. *)
Lemma handleDragOver_cross_container_witness :
  tasks (run (board [T "T1" Todo; T "T2" Todo; T "T3" Done])
             [DragStart "T1"; DragOver "T1" (Some "T3")])
  = [T "T1" Done; T "T2" Todo; T "T3" Done] ∧
  findContainer
    (tasks (handleDragOver (board [T "T1" Todo; T "T2" Todo; T "T3" Done])
                           "T2" (Some "in-progress"))) "T2"
  = Some InProgress.
Proof.
  split.
  - refine (proj1 (handleDragOver_cross_container
      (handleDragStart (board [T "T1" Todo; T "T2" Todo; T "T3" Done]) "T1")
      "T1" "T3" 0%nat (T "T1" Todo) Done _ _ _));
      [reflexivity | reflexivity | discriminate].
  - refine (proj1 (proj2 (proj2 (proj2 (handleDragOver_cross_container
      (board [T "T1" Todo; T "T2" Todo; T "T3" Done])
      "T2" "in-progress" 1%nat (T "T2" Todo) InProgress _ _ _)))));
      [reflexivity | reflexivity | discriminate].
Defined.

(** C10. A [DragOver] with no [over] target changes nothing: neither the
    tasks nor the active id, so the gesture is still in progress. *)
Theorem handleDragOver_no_target (st : State) (a : string) :
  handleDragOver st a None = st ∧
  tasks (handleDragOver st a None) = tasks st ∧
  activeId (handleDragOver st a None) = activeId st ∧
  ∀ b, activeId (run st [DragStart b; DragOver b None]) = Some b.
Proof. done. Qed.

(** ** Stale references and cancellation *)

(** C5. When the active id or the target id resolves to no container,
    [handleDragOver] returns the state it was given and [handleDragEnd]
    only clears the active id: the task collection is what it was.  Both
    handlers are total functions, so no error arises. *)
Theorem stale_reference_noop (st : State) (a o : string) :
  findContainer (tasks st) a = None ∨ resolveOver (tasks st) o = None →
  handleDragOver st a (Some o) = st ∧
  handleDragEnd st a (Some o) = setActiveId st None ∧
  tasks (handleDragEnd st a (Some o)) = tasks st.
Proof.
  intros Hstale.
  assert (handleDragOver st a (Some o) = st ∧
          handleDragEnd st a (Some o) = setActiveId st None) as [H1 H2].
  { unfold handleDragOver, handleDragEnd.
    destruct Hstale as [-> | ->]; [done|].
    by destruct (findContainer (tasks st) a). }
  by rewrite H1, H2.
Qed.

(** Scenario D: [T3] is deleted during the gesture, then hovered. *)
Lemma stale_reference_noop_witness :
  let st := handleDelete
              (handleDragStart (board [T "T1" Todo; T "T2" Todo; T "T3" Done]) "T1")
              "T3" in
  resolveOver (tasks st) "T3" = None ∧
  handleDragOver st "T1" (Some "T3") = st ∧
  tasks (handleDragEnd st "T1" (Some "T3")) = [T "T1" Todo; T "T2" Todo].
Proof.
  intros st.
  destruct (stale_reference_noop st "T1" "T3" (or_intror eq_refl)) as (Hover & _ & Hend).
  split_and!; [reflexivity | exact Hover | exact Hend].
Defined.

(** C6. A [DragEnd] with no target leaves the task sequence exactly as it
    was before that event and clears the active id; a gesture that is
    started and dropped at once on nothing gives back the sequence it
    started from. *)
Theorem handleDragEnd_cancel (st : State) (a : string) :
  tasks (handleDragEnd st a None) = tasks st ∧
  activeId (handleDragEnd st a None) = None ∧
  editingStatus (handleDragEnd st a None) = editingStatus st ∧
  tasks (run st [DragStart a; DragEnd a None]) = tasks st ∧
  activeId (run st [DragStart a; DragEnd a None]) = None.
Proof. done. Qed.

(** ** Dropping: [handleDragEnd] *)

(** C2, as the specification words it, fails when the item is dropped on
    the empty space of its own column: the target id is then a container
    id, it has no index in the backing sequence ([findIndex] gives [-1]),
    and the active item goes to the end of the sequence. *)
Lemma drop_on_own_column_counterexample :
  let st := run (board [T "T1" Todo; T "T2" Todo; T "T3" Done]) [DragStart "T1"] in
  findContainer (tasks st) "T1" = Some Todo ∧
  resolveOver (tasks st) "todo" = Some Todo ∧
  findIndex (λ task, id task = "todo") (tasks st) = -1 ∧
  tasks (handleDragEnd st "T1" (Some "todo")) = [T "T2" Todo; T "T3" Done; T "T1" Todo] ∧
  ¬ reorders_at_target st "T1" "todo".
Proof.
  intros st. split_and!; try reflexivity.
  intros (i & j & x & y & _ & Hj & _). vm_compute in Hj. discriminate.
Qed.

(** C2 (amended). When the target of a [DragEnd] is an item of the
    sequence and resolves to the container of the active item, the
    handler takes both indices in the whole backing sequence, removes
    the active item and reinserts it at the index of the target; the
    other items keep their relative order, and the active id is
    cleared. *)
Theorem handleDragEnd_same_container
    (st : State) (a o : string) (i j : nat) (x y : Task) :
  list_find (λ task, id task = a) (tasks st) = Some (i, x) →
  list_find (λ task, id task = o) (tasks st) = Some (j, y) →
  resolveOver (tasks st) o = Some (status x) →
  let st' := handleDragEnd st a (Some o) in
  tasks st' = insert_at j x (delete i (tasks st)) ∧
  tasks st' !! j = Some x ∧
  delete j (tasks st') = delete i (tasks st) ∧
  activeId st' = None.
Proof.
  intros Ha Ho Hover st'.
  assert (Hc : findContainer (tasks st) a = Some (status x))
    by (apply findContainer_Some; eauto).
  assert (Hst' : tasks st' = insert_at j x (delete i (tasks st)) ∧ activeId st' = None).
  { unfold st', handleDragEnd. rewrite Hc, Hover.
    rewrite decide_False by (by intros []). simpl.
    by rewrite (reorder_item _ _ _ _ _ _ _ Ha Ho). }
  destruct Hst' as [-> ->].
  apply list_find_Some in Ha as (Hi & _). apply list_find_Some in Ho as (Hj & _).
  assert (j ≤ length (delete i (tasks st)))%nat.
  { apply lookup_lt_Some in Hj. rewrite length_delete by eauto. lia. }
  split_and!; [done | by apply insert_at_lookup | by apply insert_at_delete | done].
Qed.

(** Scenario B of the specification, obtained from the theorem. *)
Lemma handleDragEnd_same_container_witness :
  tasks (run (board [T "T1" Todo; T "T2" Todo; T "T3" Todo])
             [DragStart "T1"; DragEnd "T1" (Some "T3")])
  = [T "T2" Todo; T "T3" Todo; T "T1" Todo].
Proof.
  refine (proj1 (handleDragEnd_same_container
    (handleDragStart (board [T "T1" Todo; T "T2" Todo; T "T3" Todo]) "T1")
    "T1" "T3" 0%nat 2%nat (T "T1" Todo) (T "T3" Todo) _ _ _)); reflexivity.
Defined.

(** C3, as the specification words it, compares the container of the
    target with the container the item had before the gesture.  The
    handler keeps no record of that: it looks the item up again, and
    after a hover has reclassified the item it finds the two containers
    equal and reorders. *)
Lemma drop_after_hover_counterexample :
  let st0 := board [T "T1" Todo; T "T2" Todo; T "T3" Done] in
  let st1 := run st0 (hovering "T1" ["T3"]) in
  let st2 := handleDragEnd st1 "T1" (Some "T3") in
  findContainer (tasks st0) "T1" = Some Todo ∧
  resolveOver (tasks st1) "T3" = Some Done ∧
  tasks st1 = [T "T1" Done; T "T2" Todo; T "T3" Done] ∧
  tasks st2 = [T "T2" Todo; T "T3" Done; T "T1" Done] ∧
  findIndex (λ task, id task = "T1") (tasks st1) = 0 ∧
  findIndex (λ task, id task = "T1") (tasks st2) = 2 ∧
  ¬ recommits_move st0 "T1" ["T3"] "T3".
Proof.
  intros st0 st1 st2. split_and!; try reflexivity.
  intros Hclaim.
  destruct (Hclaim Todo Done eq_refl eq_refl) as [_ Hindex]; [discriminate|].
  vm_compute in Hindex. discriminate.
Qed.

Lemma handleDragEnd_differ (st : State) (a o : string) (ac oc : Status) :
  findContainer (tasks st) a = Some ac →
  resolveOver (tasks st) o = Some oc →
  ac ≠ oc →
  handleDragEnd st a (Some o)
  = setActiveId (setTasks st (moveAcross (tasks st) a oc)) None.
Proof.
  intros Ha Ho Hne. unfold handleDragEnd. rewrite Ha, Ho. by rewrite decide_True.
Qed.

(** A drop on the empty space of the active item's own column: the
    target is a container id that names no task, and the item is moved
    to the end of the backing sequence. *)
Lemma handleDragEnd_own_column (st : State) (a o : string) (i : nat) (x : Task) :
  list_find (λ task, id task = a) (tasks st) = Some (i, x) →
  list_find (λ task, id task = o) (tasks st) = None →
  resolveOver (tasks st) o = Some (status x) →
  tasks (handleDragEnd st a (Some o)) = delete i (tasks st) ++ [x].
Proof.
  intros Ha Ho Hover.
  assert (Hc : findContainer (tasks st) a = Some (status x))
    by (apply findContainer_Some; eauto).
  unfold handleDragEnd. rewrite Hc, Hover.
  rewrite decide_False by (by intros []). simpl.
  by apply reorder_container_space.
Qed.

(** C3 (amended). In a gesture [DragStart a], [DragOver a t]*,
    [DragEnd a t'], when the container the target resolves to at the
    drop differs from the container the active item is in at that
    moment, [handleDragEnd] performs the cross-container move: the entry
    of the active item has the target container as its status and every
    other field as before, the active id resolves to the target
    container, the item stays at its index, every other entry is
    untouched, a further move to the same container would change
    nothing, and the active id is cleared. *)
Theorem handleDragEnd_cross_container
    (st0 : State) (a : string) (overs : list string) (o : string)
    (i : nat) (t : Task) (oc : Status) :
  let st1 := run st0 (hovering a overs) in
  list_find (λ task, id task = a) (tasks st1) = Some (i, t) →
  resolveOver (tasks st1) o = Some oc →
  status t ≠ oc →
  let st2 := handleDragEnd st1 a (Some o) in
  tasks st2 = moveAcross (tasks st1) a oc ∧
  tasks st2 = <[i := setStatus oc t]> (tasks st1) ∧
  (∃ t', tasks st2 !! i = Some t' ∧
         status t' = oc ∧
         id t' = id t ∧ title t' = title t ∧ description t' = description t ∧
         priority t' = priority t ∧ timestamp t' = timestamp t) ∧
  findContainer (tasks st2) a = Some oc ∧
  status_id <$> findContainer (tasks st2) a = status_id <$> resolveOver (tasks st1) o ∧
  list_find (λ task, id task = a) (tasks st2) = Some (i, setStatus oc t) ∧
  findIndex (λ task, id task = a) (tasks st2)
  = findIndex (λ task, id task = a) (tasks st1) ∧
  (∀ j, j ≠ i → tasks st2 !! j = tasks st1 !! j) ∧
  length (tasks st2) = length (tasks st1) ∧
  moveAcross (tasks st2) a oc = tasks st2 ∧
  activeId st2 = None.
Proof.
  intros st1. generalize st1. clear st1. intros st Hfind Hover Hne st2.
  assert (Ha : findContainer (tasks st) a = Some (status t))
    by (apply findContainer_Some; eauto).
  unfold st2. rewrite (handleDragEnd_differ _ _ _ _ _ Ha Hover Hne). simpl.
  pose proof (moveAcross_find _ _ oc _ _ Hfind) as Hfind'.
  assert (Hi' : moveAcross (tasks st) a oc !! i = Some (setStatus oc t))
    by (by apply list_find_Some in Hfind' as (? & _)).
  assert (Hc' : findContainer (moveAcross (tasks st) a oc) a = Some oc).
  { apply findContainer_Some. exists i, (setStatus oc t). split; [done|].
    reflexivity. }
  split_and!.
  - done.
  - by apply moveAcross_found.
  - exists (setStatus oc t). split; [done|]. split_and!; reflexivity.
  - done.
  - by rewrite Hc', Hover.
  - done.
  - by rewrite (findIndex_found _ _ _ _ Hfind'), (findIndex_found _ _ _ _ Hfind).
  - intros j Hj. rewrite (moveAcross_found _ _ oc _ _ Hfind).
    by rewrite list_lookup_insert_ne.
  - rewrite (moveAcross_found _ _ oc _ _ Hfind). apply length_insert.
  - apply moveAcross_idempotent.
  - done.
Qed.

(** A gesture that hovers over [T3], which puts [T1] in [done], and
    drops on the empty space of the [in-progress] column; and a gesture
    with no hover at all. *)
Lemma handleDragEnd_cross_container_witness :
  tasks (run (board [T "T1" Todo; T "T2" Todo; T "T3" Done])
             (hovering "T1" ["T3"]))
  = [T "T1" Done; T "T2" Todo; T "T3" Done] ∧
  tasks (run (board [T "T1" Todo; T "T2" Todo; T "T3" Done])
             (gesture "T1" ["T3"] (Some "in-progress")))
  = [T "T1" InProgress; T "T2" Todo; T "T3" Done] ∧
  findContainer
    (tasks (run (board [T "T1" Todo; T "T2" Todo; T "T3" Done])
                (gesture "T1" ["T3"] (Some "in-progress")))) "T1"
  = Some InProgress ∧
  tasks (run (board [T "T1" Todo; T "T2" Todo; T "T3" Done])
             (gesture "T1" [] (Some "T3")))
  = [T "T1" Done; T "T2" Todo; T "T3" Done].
Proof.
  split_and!.
  - reflexivity.
  - refine (proj1 (proj2 (handleDragEnd_cross_container
      (board [T "T1" Todo; T "T2" Todo; T "T3" Done])
      "T1" ["T3"] "in-progress" 0%nat (T "T1" Done) InProgress _ _ _)));
      [reflexivity | reflexivity | discriminate].
  - refine (proj1 (proj2 (proj2 (proj2 (handleDragEnd_cross_container
      (board [T "T1" Todo; T "T2" Todo; T "T3" Done])
      "T1" ["T3"] "in-progress" 0%nat (T "T1" Done) InProgress _ _ _)))));
      [reflexivity | reflexivity | discriminate].
  - refine (proj1 (proj2 (handleDragEnd_cross_container
      (board [T "T1" Todo; T "T2" Todo; T "T3" Done])
      "T1" [] "T3" 0%nat (T "T1" Todo) Done _ _ _)));
      [reflexivity | reflexivity | discriminate].
Defined.

(** ** Conservation *)

Lemma step_unclassified (st : State) (ev : Event) :
  unclassified <$> tasks (step st ev) ≡ₚ unclassified <$> tasks st.
Proof.
  destruct ev as [a | a [o|] | a [o|]]; simpl; try done.
  - unfold handleDragOver.
    destruct (findContainer (tasks st) a) as [ac|], (resolveOver (tasks st) o) as [oc|]; try done.
    case_decide; [done|]. simpl. by rewrite moveAcross_unclassified.
  - unfold handleDragEnd.
    destruct (findContainer (tasks st) a) as [ac|], (resolveOver (tasks st) o) as [oc|]; try done.
    case_decide; simpl.
    + by rewrite moveAcross_unclassified.
    + by rewrite reorder_Permutation.
Qed.

Lemma run_unclassified (evs : list Event) (st : State) :
  unclassified <$> tasks (run st evs) ≡ₚ unclassified <$> tasks st.
Proof.
  revert st. induction evs as [|ev evs IH]; intros st; [done|].
  change (run st (ev :: evs)) with (run (step st ev) evs).
  rewrite IH. apply step_unclassified.
Qed.

(** C7. Whatever sequence of [DragStart], [DragOver] and [DragEnd]
    events is applied, the ids of the tasks are the same multiset as
    before: no task appears, disappears or is duplicated.  More
    precisely the tasks themselves are the same multiset up to their
    status, so no id, and no field other than the status, is altered. *)
Theorem run_conserves_ids (st : State) (evs : list Event) :
  id <$> tasks (run st evs) ≡ₚ id <$> tasks st ∧
  unclassified <$> tasks (run st evs) ≡ₚ unclassified <$> tasks st ∧
  length (tasks (run st evs)) = length (tasks st).
Proof.
  pose proof (run_unclassified evs st) as Hperm.
  assert (Hid : ∀ ts : list Task, id <$> ts = id <$> (unclassified <$> ts)).
  { intros ts. rewrite <- list_fmap_compose. by apply list_fmap_ext. }
  split_and!.
  - rewrite (Hid (tasks (run st evs))), (Hid (tasks st)). by rewrite Hperm.
  - done.
  - apply Permutation_length in Hperm. by rewrite !length_fmap in Hperm.
Qed.

(** ** Idempotence and the identity reorder *)

Lemma handleDragOver_idempotent (st : State) (a o : string) :
  handleDragOver (handleDragOver st a (Some o)) a (Some o)
  = handleDragOver st a (Some o).
Proof.
  unfold handleDragOver at 2 3.
  destruct (findContainer (tasks st) a) as [ac|] eqn:Ha; [|by unfold handleDragOver; rewrite Ha].
  destruct (resolveOver (tasks st) o) as [oc|] eqn:Ho; [|by unfold handleDragOver; rewrite Ha, Ho].
  case_decide as Hc; [by unfold handleDragOver; rewrite Ha, Ho, decide_True|].
  unfold handleDragOver. simpl.
  rewrite findContainer_moveAcross by (by rewrite Ha).
  assert (Ho' : resolveOver (moveAcross (tasks st) a oc) o = Some oc).
  { revert Ho. unfold resolveOver.
    destruct (container_of_id o); [done|].
    intros Ho. destruct (decide (a = o)) as [->|Hne]; [congruence|].
    revert Ho. unfold findContainer, find.
    by rewrite moveAcross_find_other. }
  rewrite Ho'. by rewrite decide_True.
Qed.

(** C8. The cross-container move is idempotent: applied a second time
    with the same target container it gives what it gave the first
    time, for the updater and for the [DragOver] handler that runs it;
    and moving an item to the container it is in changes nothing. *)
Theorem moveAcross_idempotence (ts : list Task) (a : string) (c : Status) :
  moveAcross (moveAcross ts a c) a c = moveAcross ts a c ∧
  (findContainer ts a = Some c → moveAcross ts a c = ts) ∧
  (∀ st o, handleDragOver (handleDragOver st a (Some o)) a (Some o)
           = handleDragOver st a (Some o)).
Proof.
  split_and!.
  - apply moveAcross_idempotent.
  - apply moveAcross_same_container.
  - intros st o. apply handleDragOver_idempotent.
Qed.

Lemma moveAcross_idempotence_witness :
  moveAcross [T "T1" Done; T "T2" Todo] "T1" Done = [T "T1" Done; T "T2" Todo].
Proof.
  apply (proj1 (proj2 (moveAcross_idempotence [T "T1" Done; T "T2" Todo] "T1" Done))).
  reflexivity.
Defined.

(** C9. The reorder with the target equal to the active item gives back
    the sequence it was given, whatever the sequence and the id: the two
    indices are equal and no move is made.  A move from an index to the
    same index would give the same sequence too. *)
Theorem reorder_same (ts : list Task) (a : string) :
  reorder ts a a = ts ∧
  (∀ (k : nat) x, ts !! k = Some x →
     arrayMove ts (Z.of_nat k) (Z.of_nat k) = Some ts) ∧
  (∀ st, tasks st = ts → container_of_id a = None →
     tasks (handleDragEnd st a (Some a)) = ts).
Proof.
  assert (Hre : reorder ts a a = ts) by (unfold reorder; by rewrite decide_False by (by intros [])).
  split_and!.
  - done.
  - intros k x. apply arrayMove_same.
  - intros st <- Hc. unfold handleDragEnd, resolveOver. rewrite Hc.
    destruct (findContainer (tasks st) a); [|done].
    rewrite decide_False by (by intros []). done.
Qed.

Lemma reorder_same_witness :
  let ts := [T "T1" Todo; T "T2" Todo; T "T3" Todo] in
  arrayMove ts 1 1 = Some ts ∧
  tasks (handleDragEnd (board ts) "T2" (Some "T2")) = ts.
Proof.
  intros ts. split.
  - apply (proj1 (proj2 (reorder_same ts "T2")) 1%nat (T "T2" Todo)). reflexivity.
  - apply (proj2 (proj2 (reorder_same ts "T2")) (board ts)); reflexivity.
Defined.


(** * Further properties of the component *)

(** ** More on arrays *)

Section MoreArrayFacts.
Context {A : Type}.
Implicit Types (l : list A) (x : A) (i j : nat).

Lemma delete_insert_same l i x : delete i (<[i := x]> l) = delete i l.
Proof.
  revert i. induction l as [|y l IH]; intros [|i]; simpl; try done.
  by rewrite IH.
Qed.

Lemma filter_all (P : A → Prop) `{∀ x, Decision (P x)} l :
  Forall P l → filter P l = l.
Proof.
  induction 1 as [|x l Hx _ IH]; [done|].
  by rewrite filter_cons_True, IH.
Qed.

Lemma filter_insert_at (P : A → Prop) `{∀ x, Decision (P x)} j x l :
  ¬ P x → filter P (insert_at j x l) = filter P l.
Proof.
  intros Hx. unfold insert_at.
  rewrite filter_app, filter_cons_False by done.
  by rewrite <- filter_app, take_drop.
Qed.

Lemma filter_delete (P : A → Prop) `{∀ x, Decision (P x)} i x l :
  l !! i = Some x → ¬ P x → filter P (delete i l) = filter P l.
Proof.
  intros Hi Hx. rewrite <- (take_drop_middle l i x Hi) at 2.
  rewrite delete_take_drop, !filter_app. by rewrite filter_cons_False.
Qed.

(** An element that a filter rejects can be moved anywhere: what the
    filter keeps is the same, in the same order. *)
Lemma filter_arrayMove (P : A → Prop) `{∀ x, Decision (P x)} l i x (to : Z) l' :
  l !! i = Some x → ¬ P x →
  arrayMove l (Z.of_nat i) to = Some l' → filter P l' = filter P l.
Proof.
  intros Hi Hx. unfold arrayMove.
  rewrite (splice_remove_index l i x Hi). simpl. intros [= <-].
  unfold splice_insert.
  rewrite (filter_insert_at P _ x (delete i l) Hx : filter P (take _ _ ++ _) = _).
  by eapply filter_delete.
Qed.

Lemma filter_insert_other (P : A → Prop) `{∀ x, Decision (P x)} l i x y :
  l !! i = Some x → ¬ P x → ¬ P y → filter P (<[i := y]> l) = filter P l.
Proof.
  intros Hi Hx Hy.
  rewrite insert_take_drop by (by eapply lookup_lt_Some).
  rewrite <- (take_drop_middle l i x Hi) at 3.
  rewrite !filter_app. by rewrite !filter_cons_False.
Qed.
End MoreArrayFacts.

(** ** What a hover and a drop never do *)

Lemma resolveOver_moveAcross (ts : list Task) (a o : string) (ac oc : Status) :
  findContainer ts a = Some ac →
  resolveOver ts o = Some oc →
  ac ≠ oc →
  resolveOver (moveAcross ts a oc) o = Some oc.
Proof.
  intros Ha Ho Hne. revert Ho. unfold resolveOver.
  destruct (container_of_id o); [done|].
  intros Ho. destruct (decide (a = o)) as [->|Hao]; [congruence|].
  revert Ho. unfold findContainer, find.
  by rewrite moveAcross_find_other.
Qed.

Lemma handleDragOver_differ (st : State) (a o : string) (ac oc : Status) :
  findContainer (tasks st) a = Some ac →
  resolveOver (tasks st) o = Some oc →
  ac ≠ oc →
  handleDragOver st a (Some o) = setTasks st (moveAcross (tasks st) a oc).
Proof.
  intros Ha Ho Hne. unfold handleDragOver. rewrite Ha, Ho. by rewrite decide_False.
Qed.

Lemma handleDragOver_tasks (st : State) (a : string) (over : option string) :
  tasks (handleDragOver st a over) = tasks st ∨
  ∃ oc, tasks (handleDragOver st a over) = moveAcross (tasks st) a oc.
Proof.
  unfold handleDragOver. destruct over as [o|]; [|by left].
  destruct (findContainer (tasks st) a), (resolveOver (tasks st) o) as [oc|];
    try (by left).
  case_decide; [by left|]. right. by exists oc.
Qed.

(** X1. A [DragOver], whatever it is over, never reorders and never
    touches a field other than a status: the sequence of tasks with
    their status forgotten, and so the sequence of ids, is the same
    before and after, and so are the active id and the editing mode. *)
Theorem handleDragOver_keeps_order (st : State) (a : string) (over : option string) :
  unclassified <$> tasks (handleDragOver st a over) = unclassified <$> tasks st ∧
  id <$> tasks (handleDragOver st a over) = id <$> tasks st ∧
  activeId (handleDragOver st a over) = activeId st ∧
  editingStatus (handleDragOver st a over) = editingStatus st.
Proof.
  split_and!.
  - destruct (handleDragOver_tasks st a over) as [-> | [oc ->]]; [done|].
    apply moveAcross_unclassified.
  - destruct (handleDragOver_tasks st a over) as [-> | [oc ->]]; [done|].
    apply moveAcross_ids.
  - unfold handleDragOver. by repeat case_match.
  - unfold handleDragOver. by repeat case_match.
Qed.

(** X2. A [DragEnd] always ends the gesture, whichever branch it takes:
    the active id is cleared, the drag overlay shows no card, the editing
    mode is as it was, and the tasks are a rearrangement, up to status,
    of what they were. *)
Theorem handleDragEnd_ends_gesture (st : State) (a : string) (over : option string) :
  activeId (handleDragEnd st a over) = None ∧
  dragOverlay (handleDragEnd st a over) = None ∧
  editingStatus (handleDragEnd st a over) = editingStatus st ∧
  unclassified <$> tasks (handleDragEnd st a over) ≡ₚ unclassified <$> tasks st.
Proof.
  assert (Hact : activeId (handleDragEnd st a over) = None)
    by (unfold handleDragEnd; by repeat case_match).
  split_and!.
  - done.
  - unfold dragOverlay. by rewrite Hact.
  - unfold handleDragEnd. by repeat case_match.
  - apply (step_unclassified st (DragEnd a over)).
Qed.

(** ** Whole gestures *)

Lemma setStatus_changes (c : Status) (t : Task) : status t ≠ c → setStatus c t ≠ t.
Proof. intros Hne Heq. apply Hne. by rewrite <- Heq. Qed.

(** X3. A hover that has moved the item to another container is not
    undone by a cancellation: after [DragStart], a [DragOver] across
    containers and a [DragEnd] with no target, the item still has the
    status of the hovered container, so the board is not what it was
    before the gesture. *)
Theorem cancel_keeps_reassignment
    (st : State) (a o : string) (i : nat) (t : Task) (oc : Status) :
  list_find (λ task, id task = a) (tasks st) = Some (i, t) →
  resolveOver (tasks st) o = Some oc →
  status t ≠ oc →
  let st' := run st [DragStart a; DragOver a (Some o); DragEnd a None] in
  tasks st' = <[i := setStatus oc t]> (tasks st) ∧
  findContainer (tasks st') a = Some oc ∧
  tasks st' ≠ tasks st ∧
  activeId st' = None.
Proof.
  intros Hfind Hover Hne st'.
  assert (Ha : findContainer (tasks st) a = Some (status t))
    by (apply findContainer_Some; eauto).
  assert (Hts : tasks st' = moveAcross (tasks st) a oc).
  { change (tasks st') with (tasks (handleDragOver (handleDragStart st a) a (Some o))).
    by rewrite (handleDragOver_differ (handleDragStart st a) a o _ _ Ha Hover Hne). }
  split_and!.
  - rewrite Hts. by apply moveAcross_found.
  - rewrite Hts. apply findContainer_moveAcross. by rewrite Ha.
  - rewrite Hts, (moveAcross_found _ _ _ _ _ Hfind). intros Heq.
    apply list_find_Some in Hfind as (Hi & _).
    assert (Hi' : <[i := setStatus oc t]> (tasks st) !! i = Some (setStatus oc t))
      by (apply list_lookup_insert_eq; by eapply lookup_lt_Some).
    rewrite Heq, Hi in Hi'. injection Hi' as Hi'.
    by eapply setStatus_changes.
  - done.
Qed.

Lemma cancel_keeps_reassignment_witness :
  tasks (run (board [T "T1" Todo; T "T2" Todo; T "T3" Done])
             [DragStart "T1"; DragOver "T1" (Some "done"); DragEnd "T1" None])
  = [T "T1" Done; T "T2" Todo; T "T3" Done].
Proof.
  refine (proj1 (cancel_keeps_reassignment
    (board [T "T1" Todo; T "T2" Todo; T "T3" Done])
    "T1" "done" 0%nat (T "T1" Todo) Done _ _ _));
    [reflexivity | reflexivity | discriminate].
Defined.

(** The state of the tasks after a hover across containers. *)
Lemma hover_then (st : State) (a o : string) (i : nat) (x : Task) (oc : Status) :
  list_find (λ task, id task = a) (tasks st) = Some (i, x) →
  resolveOver (tasks st) o = Some oc →
  status x ≠ oc →
  let st1 := run st [DragStart a; DragOver a (Some o)] in
  tasks st1 = <[i := setStatus oc x]> (tasks st) ∧
  list_find (λ task, id task = a) (tasks st1) = Some (i, setStatus oc x) ∧
  resolveOver (tasks st1) o = Some oc.
Proof.
  intros Hfind Hover Hne st1.
  assert (Ha : findContainer (tasks st) a = Some (status x))
    by (apply findContainer_Some; eauto).
  assert (Hts : tasks st1 = moveAcross (tasks st) a oc).
  { change st1 with (handleDragOver (handleDragStart st a) a (Some o)).
    by rewrite (handleDragOver_differ (handleDragStart st a) a o _ _ Ha Hover Hne). }
  rewrite Hts. split_and!.
  - by apply moveAcross_found.
  - by apply moveAcross_find.
  - by eapply resolveOver_moveAcross.
Qed.

(** X4. Dragging an item over an item of another container and dropping
    it there: the hover gives it the status of that container, and the
    drop, finding both in one container, moves it to the index the
    target has in the backing sequence. *)
Theorem drag_onto_item
    (st : State) (a o : string) (i j : nat) (x y : Task) (oc : Status) :
  list_find (λ task, id task = a) (tasks st) = Some (i, x) →
  list_find (λ task, id task = o) (tasks st) = Some (j, y) →
  resolveOver (tasks st) o = Some oc →
  status x ≠ oc →
  let st' := run st [DragStart a; DragOver a (Some o); DragEnd a (Some o)] in
  tasks st' = insert_at j (setStatus oc x) (delete i (tasks st)) ∧
  tasks st' !! j = Some (setStatus oc x) ∧
  activeId st' = None.
Proof.
  intros Ha Ho Hover Hne st'.
  destruct (hover_then st a o i x oc Ha Hover Hne) as (Hts & Ha1 & Hover1).
  set (st1 := run st [DragStart a; DragOver a (Some o)]) in *.
  assert (Ho1 : ∃ y', list_find (λ task, id task = o) (tasks st1) = Some (j, y')).
  { destruct (decide (a = o)) as [->|Hao].
    - rewrite Ha in Ho. injection Ho as <- <-. eauto.
    - exists y. rewrite Hts, <- (moveAcross_found _ _ oc _ _ Ha).
      by rewrite moveAcross_find_other. }
  destruct Ho1 as [y' Ho1].
  assert (Hc1 : findContainer (tasks st1) a = Some oc)
    by (apply findContainer_Some; eauto).
  assert (Hend : tasks st' = reorder (tasks st1) a o ∧ activeId st' = None).
  { change st' with (handleDragEnd st1 a (Some o)).
    unfold handleDragEnd. rewrite Hc1, Hover1.
    by rewrite decide_False by (by intros []). }
  destruct Hend as [Hend ->].
  rewrite Hend, (reorder_item _ _ _ _ _ _ _ Ha1 Ho1), Hts, delete_insert_same.
  split_and!; [done| |done].
  apply insert_at_lookup.
  apply list_find_Some in Ha as (Hi & _). apply list_find_Some in Ho as (Hj & _).
  apply lookup_lt_Some in Hj. rewrite length_delete by eauto. lia.
Qed.

Lemma drag_onto_item_witness :
  tasks (run (board [T "T1" Todo; T "T2" Todo; T "T3" Done; T "T4" Done])
             [DragStart "T1"; DragOver "T1" (Some "T3"); DragEnd "T1" (Some "T3")])
  = [T "T2" Todo; T "T3" Done; T "T1" Done; T "T4" Done].
Proof.
  refine (proj1 (drag_onto_item
    (board [T "T1" Todo; T "T2" Todo; T "T3" Done; T "T4" Done])
    "T1" "T3" 0%nat 2%nat (T "T1" Todo) (T "T3" Done) Done _ _ _ _));
    [reflexivity | reflexivity | reflexivity | discriminate].
Defined.

(** X5. Dragging an item over the empty space of another column, whose
    id names no task, and dropping it there sends it to the end of the
    backing sequence with the status of that column; when the drop
    arrives with no hover before it, only the status changes and the
    item stays where it is. *)
Theorem drag_onto_column
    (st : State) (a o : string) (i : nat) (x : Task) (oc : Status) :
  list_find (λ task, id task = a) (tasks st) = Some (i, x) →
  list_find (λ task, id task = o) (tasks st) = None →
  resolveOver (tasks st) o = Some oc →
  status x ≠ oc →
  tasks (run st [DragStart a; DragOver a (Some o); DragEnd a (Some o)])
  = delete i (tasks st) ++ [setStatus oc x] ∧
  tasks (run st [DragStart a; DragEnd a (Some o)])
  = <[i := setStatus oc x]> (tasks st).
Proof.
  intros Ha Ho Hover Hne.
  assert (Hc : findContainer (tasks st) a = Some (status x))
    by (apply findContainer_Some; eauto).
  split.
  - destruct (hover_then st a o i x oc Ha Hover Hne) as (Hts & Ha1 & Hover1).
    set (st1 := run st [DragStart a; DragOver a (Some o)]) in *.
    assert (Hao : a ≠ o).
    { intros ->. by rewrite Ho in Ha. }
    assert (Ho1 : list_find (λ task, id task = o) (tasks st1) = None).
    { rewrite Hts, <- (moveAcross_found _ _ oc _ _ Ha).
      by rewrite moveAcross_find_other. }
    change (run st [DragStart a; DragOver a (Some o); DragEnd a (Some o)])
      with (handleDragEnd st1 a (Some o)).
    assert (Hover1' : resolveOver (tasks st1) o = Some (status (setStatus oc x))) by done.
    rewrite (handleDragEnd_own_column st1 a o i _ Ha1 Ho1 Hover1').
    by rewrite Hts, delete_insert_same.
  - change (run st [DragStart a; DragEnd a (Some o)])
      with (handleDragEnd (handleDragStart st a) a (Some o)).
    rewrite (handleDragEnd_differ (handleDragStart st a) a o _ _ Hc Hover Hne). simpl.
    by apply moveAcross_found.
Qed.

Lemma drag_onto_column_witness :
  let st := board [T "T1" Todo; T "T2" Todo; T "T3" Done] in
  tasks (run st [DragStart "T1"; DragOver "T1" (Some "in-progress");
                 DragEnd "T1" (Some "in-progress")])
  = [T "T2" Todo; T "T3" Done; T "T1" InProgress] ∧
  tasks (run st [DragStart "T1"; DragEnd "T1" (Some "in-progress")])
  = [T "T1" InProgress; T "T2" Todo; T "T3" Done].
Proof.
  intros st.
  refine (drag_onto_column st "T1" "in-progress" 0%nat (T "T1" Todo) InProgress _ _ _ _);
    [reflexivity | reflexivity | reflexivity | discriminate].
Defined.

(** X6. Hovering away and back is a round trip: a [DragOver] that moves
    the item to another container, followed by one over a target, other
    than the item itself, that resolves to the container the item came
    from, gives back exactly the tasks there were. *)
Theorem hover_back_round_trip
    (st : State) (a o o' : string) (i : nat) (t : Task) (oc : Status) :
  list_find (λ task, id task = a) (tasks st) = Some (i, t) →
  resolveOver (tasks st) o = Some oc →
  status t ≠ oc →
  resolveOver (tasks st) o' = Some (status t) →
  a ≠ o' →
  tasks (run st [DragOver a (Some o); DragOver a (Some o')]) = tasks st.
Proof.
  intros Ha Hover Hne Hback Hao'.
  assert (Hc : findContainer (tasks st) a = Some (status t))
    by (apply findContainer_Some; eauto).
  change (run st [DragOver a (Some o); DragOver a (Some o')])
    with (handleDragOver (handleDragOver st a (Some o)) a (Some o')).
  rewrite (handleDragOver_differ st a o _ _ Hc Hover Hne).
  set (st1 := setTasks st (moveAcross (tasks st) a oc)).
  assert (Hc1 : findContainer (tasks st1) a = Some oc)
    by (apply findContainer_moveAcross; by rewrite Hc).
  assert (Hback1 : resolveOver (tasks st1) o' = Some (status t)).
  { revert Hback. unfold resolveOver. destruct (container_of_id o'); [done|].
    unfold findContainer, find. simpl. by rewrite moveAcross_find_other. }
  rewrite (handleDragOver_differ st1 a o' _ _ Hc1 Hback1) by done.
  simpl.
  rewrite (moveAcross_found _ _ _ _ _ (moveAcross_find _ _ oc _ _ Ha)).
  rewrite (moveAcross_found _ _ _ _ _ Ha).
  rewrite list_insert_insert_eq, setStatus_twice, setStatus_same.
  apply list_insert_id. by apply list_find_Some in Ha as (? & _).
Qed.

Lemma hover_back_round_trip_witness :
  tasks (run (board [T "T1" Todo; T "T2" Todo; T "T3" Done])
             [DragOver "T1" (Some "T3"); DragOver "T1" (Some "T2")])
  = [T "T1" Todo; T "T2" Todo; T "T3" Done].
Proof.
  refine (hover_back_round_trip
    (board [T "T1" Todo; T "T2" Todo; T "T3" Done])
    "T1" "T3" "T2" 0%nat (T "T1" Todo) Done _ _ _ _ _);
    [reflexivity | reflexivity | discriminate | reflexivity | discriminate].
Defined.

(** ** The columns *)

Lemma column_moveAcross_other (ts : list Task) (a : string) (ac oc c : Status) :
  findContainer ts a = Some ac → ac ≠ c → oc ≠ c →
  column c (moveAcross ts a oc) = column c ts.
Proof.
  intros (i & t & Hfind & <-)%findContainer_Some Hac Hoc.
  rewrite (moveAcross_found _ _ _ _ _ Hfind).
  apply list_find_Some in Hfind as (Hi & _).
  unfold column. by apply (filter_insert_other _ _ i t).
Qed.

Lemma column_reorder_other (ts : list Task) (a o : string) (ac c : Status) :
  findContainer ts a = Some ac → ac ≠ c →
  column c (reorder ts a o) = column c ts.
Proof.
  intros (i & t & Hfind & <-)%findContainer_Some Hac.
  unfold reorder. case_decide; [|done].
  rewrite (findIndex_found _ _ _ _ Hfind).
  apply list_find_Some in Hfind as (Hi & _).
  destruct (arrayMove_is_Some ts i t
              (findIndex (λ task, id task = o) ts) Hi) as [l' Hmove].
  rewrite Hmove. simpl. unfold column. by eapply filter_arrayMove.
Qed.

(** X7. A drag event changes at most two columns: what a column other
    than the one of the active item and the one the target resolves to
    displays is the same, in the same order, after a [DragOver] and
    after a [DragEnd]. *)
Theorem drag_frames_other_columns
    (st : State) (a : string) (over : option string) (c : Status) :
  findContainer (tasks st) a ≠ Some c →
  (∀ o, over = Some o → resolveOver (tasks st) o ≠ Some c) →
  column c (tasks (handleDragOver st a over)) = column c (tasks st) ∧
  column c (tasks (handleDragEnd st a over)) = column c (tasks st).
Proof.
  intros Ha Hover. destruct over as [o|]; [|done].
  specialize (Hover o eq_refl).
  unfold handleDragOver, handleDragEnd.
  destruct (findContainer (tasks st) a) as [ac|] eqn:Hac; [|done].
  destruct (resolveOver (tasks st) o) as [oc|] eqn:Hoc; [|done].
  assert (ac ≠ c) by congruence. assert (oc ≠ c) by congruence.
  split.
  - case_decide; [done|]. simpl. by apply (column_moveAcross_other _ _ ac).
  - case_decide; simpl.
    + by apply (column_moveAcross_other _ _ ac).
    + by apply (column_reorder_other _ _ _ ac).
Qed.

Lemma drag_frames_other_columns_witness :
  let st := board [T "T1" Todo; T "T2" InProgress; T "T3" Done; T "T4" InProgress] in
  column InProgress (tasks (handleDragOver st "T1" (Some "T3")))
  = [T "T2" InProgress; T "T4" InProgress] ∧
  column InProgress (tasks (handleDragEnd st "T1" (Some "T3")))
  = [T "T2" InProgress; T "T4" InProgress].
Proof.
  intros st.
  refine (drag_frames_other_columns st "T1" (Some "T3") InProgress _ _).
  - discriminate.
  - intros o [= <-]. discriminate.
Defined.

(** X8. Where a hovered item shows up: after a [DragOver] across
    containers the target column displays the item between the tasks of
    that column that come before it and those that come after it in the
    backing sequence, not at the place of the pointer, and the column it
    left displays its other tasks in the order they had. *)
Theorem hover_column_views
    (st : State) (a o : string) (i : nat) (t : Task) (oc : Status) :
  list_find (λ task, id task = a) (tasks st) = Some (i, t) →
  resolveOver (tasks st) o = Some oc →
  status t ≠ oc →
  let ts' := tasks (handleDragOver st a (Some o)) in
  column oc ts'
  = column oc (take i (tasks st)) ++ setStatus oc t :: column oc (drop (S i) (tasks st)) ∧
  column oc (tasks st)
  = column oc (take i (tasks st)) ++ column oc (drop (S i) (tasks st)) ∧
  column (status t) ts'
  = column (status t) (take i (tasks st)) ++ column (status t) (drop (S i) (tasks st)) ∧
  column (status t) (tasks st)
  = column (status t) (take i (tasks st)) ++ t :: column (status t) (drop (S i) (tasks st)).
Proof.
  intros Hfind Hover Hne ts'.
  assert (Ha : findContainer (tasks st) a = Some (status t))
    by (apply findContainer_Some; eauto).
  assert (Hts : ts' = <[i := setStatus oc t]> (tasks st)).
  { unfold ts'. rewrite (handleDragOver_differ st a o _ _ Ha Hover Hne). simpl.
    by apply moveAcross_found. }
  apply list_find_Some in Hfind as (Hi & _).
  rewrite Hts, insert_take_drop by (by eapply lookup_lt_Some).
  unfold column. split_and!.
  - rewrite filter_app. by rewrite filter_cons_True.
  - rewrite <- (take_drop_middle _ i t Hi) at 1.
    rewrite filter_app. by rewrite filter_cons_False.
  - rewrite filter_app. rewrite filter_cons_False; [done|]. simpl. congruence.
  - rewrite <- (take_drop_middle _ i t Hi) at 1.
    rewrite filter_app. by rewrite filter_cons_True.
Qed.

Lemma hover_column_views_witness :
  column Done (tasks (handleDragOver
    (board [T "T0" Done; T "T1" Todo; T "T2" Todo; T "T3" Done]) "T1" (Some "T3")))
  = [T "T0" Done; T "T1" Done; T "T3" Done].
Proof.
  refine (proj1 (hover_column_views
    (board [T "T0" Done; T "T1" Todo; T "T2" Todo; T "T3" Done])
    "T1" "T3" 1%nat (T "T1" Todo) Done _ _ _));
    [reflexivity | reflexivity | discriminate].
Defined.

Lemma columns_Permutation (ts : list Task) :
  todoTasks ts ++ inProgressTasks ts ++ doneTasks ts
  ≡ₚ filter (λ task, status task ≠ Failed) ts.
Proof.
  unfold todoTasks, inProgressTasks, doneTasks, column.
  induction ts as [|t ts IH]; [done|].
  rewrite !filter_cons.
  destruct (status t) eqn:Hs; repeat case_decide; try done; simpl.
  - by rewrite IH.
  - rewrite <- IH. rewrite <- !Permutation_middle. done.
  - rewrite <- IH. by rewrite <- Permutation_middle.
Qed.

(** X9. The three columns display, between them, exactly the tasks that
    are not [failed], each once; a [failed] task is on no column. *)
Theorem columns_partition (ts : list Task) :
  todoTasks ts ++ inProgressTasks ts ++ doneTasks ts
  ≡ₚ filter (λ task, status task ≠ Failed) ts ∧
  (∀ t, t ∈ todoTasks ts ++ inProgressTasks ts ++ doneTasks ts
        ↔ t ∈ ts ∧ status t ≠ Failed) ∧
  (length (todoTasks ts) + length (inProgressTasks ts) + length (doneTasks ts)
   + length (column Failed ts) = length ts)%nat.
Proof.
  pose proof (columns_Permutation ts) as Hperm.
  split_and!.
  - done.
  - intros t. rewrite Hperm, list_elem_of_filter. tauto.
  - apply Permutation_length in Hperm. rewrite !length_app in Hperm.
    pose proof (filter_app_complement (λ task, status task ≠ Failed) ts) as Hc.
    apply Permutation_length in Hc. rewrite length_app in Hc.
    assert (Hf : filter (λ task, ¬ status task ≠ Failed) ts = column Failed ts).
    { unfold column. apply list_filter_iff. intros t.
      destruct (decide (status t = Failed)); tauto. }
    rewrite Hf in Hc. lia.
Qed.

(** ** Deleting *)

Lemma list_find_filter_ne (ts : list Task) (i j : string) :
  j ≠ i →
  snd <$> list_find (λ task, id task = j) (filter (λ task, id task ≠ i) ts)
  = snd <$> list_find (λ task, id task = j) ts.
Proof.
  intros Hji. induction ts as [|t ts IH]; [done|].
  rewrite filter_cons. destruct (decide (id t ≠ i)) as [Hti|Hti].
  - simpl. case_decide; [done|].
    destruct (list_find _ (filter _ ts)) as [[]|], (list_find _ ts) as [[]|];
      simpl in *; congruence.
  - rewrite IH. simpl. rewrite decide_False.
    + by destruct (list_find _ ts) as [[]|].
    + intros Htj. apply Hti. congruence.
Qed.

Lemma list_find_filter_eq (ts : list Task) (i : string) :
  list_find (λ task, id task = i) (filter (λ task, id task ≠ i) ts) = None.
Proof.
  apply list_find_None, Forall_forall.
  by intros t [? _]%list_elem_of_filter.
Qed.

(** X10. After [handleDelete] the deleted id resolves to no container,
    and every other id resolves to what it resolved to before. *)
Theorem handleDelete_lookup (st : State) (i j : string) :
  findContainer (tasks (handleDelete st i)) j
  = if decide (j = i) then None else findContainer (tasks st) j.
Proof.
  unfold handleDelete, findContainer, find. simpl.
  case_decide as Hji.
  - subst j. by rewrite list_find_filter_eq.
  - by rewrite list_find_filter_ne.
Qed.

Lemma filter_delete_unique (ts : list Task) (i : string) (k : nat) (t : Task) :
  NoDup (id <$> ts) → ts !! k = Some t → id t = i →
  filter (λ task, id task ≠ i) ts = delete k ts.
Proof.
  revert k. induction ts as [|h ts IH]; intros k Hnd Hk Hid; [done|].
  rewrite fmap_cons in Hnd. apply NoDup_cons in Hnd as [Hh Hnd].
  destruct k as [|k]; simpl in *.
  - injection Hk as ->. rewrite filter_cons_False by (intros Hne; by apply Hne).
    apply filter_all, Forall_forall. intros t' Ht' Heq.
    apply Hh. rewrite Hid, <- Heq. by apply list_elem_of_fmap_2.
  - assert (id h ≠ i).
    { intros Heq. apply Hh. rewrite Heq, <- Hid.
      apply list_elem_of_fmap_2. by eapply list_elem_of_lookup_2. }
    rewrite filter_cons_True by done. f_equal. by apply IH.
Qed.

(** X11. When the ids of the board are all different, [handleDelete]
    removes exactly the task that carries the id, at the index where it
    is found, and keeps the others in their order. *)
Theorem handleDelete_unique (st : State) (i : string) (k : nat) (t : Task) :
  NoDup (id <$> tasks st) →
  list_find (λ task, id task = i) (tasks st) = Some (k, t) →
  tasks (handleDelete st i) = delete k (tasks st) ∧
  length (tasks (handleDelete st i)) = pred (length (tasks st)).
Proof.
  intros Hnd (Hk & Hid & _)%list_find_Some.
  assert (Hts : tasks (handleDelete st i) = delete k (tasks st))
    by (by apply filter_delete_unique with t).
  split; [done|]. rewrite Hts, length_delete by eauto. lia.
Qed.

Lemma handleDelete_unique_witness :
  tasks (handleDelete (board [T "T1" Todo; T "T2" Todo; T "T3" Done]) "T2")
  = [T "T1" Todo; T "T3" Done].
Proof.
  refine (proj1 (handleDelete_unique
    (board [T "T1" Todo; T "T2" Todo; T "T3" Done]) "T2" 1%nat (T "T2" Todo) _ _));
    [apply (bool_decide_unpack _); vm_compute; exact I | reflexivity].
Defined.

(** X12. [handleDelete] is idempotent: on every board and for every
    id, deleting the id a second time gives the state the first deletion
    gave; and deleting an id that is not on the board gives back the
    state as it was. *)
Theorem handleDelete_absent (st : State) (i : string) :
  handleDelete (handleDelete st i) i = handleDelete st i ∧
  tasks (handleDelete (handleDelete st i) i) = tasks (handleDelete st i) ∧
  (findContainer (tasks st) i = None → handleDelete st i = st).
Proof.
  assert (Hid : ∀ ts : list Task,
    list_find (λ task, id task = i) ts = None →
    filter (λ task, id task ≠ i) ts = ts).
  { intros ts Hts. apply filter_all. by apply list_find_None in Hts. }
  assert (Htwice : handleDelete (handleDelete st i) i = handleDelete st i).
  { unfold handleDelete at 1. unfold setTasks.
    rewrite (Hid (tasks (handleDelete st i))).
    + by destruct (handleDelete st i).
    + apply list_find_filter_eq. }
  split_and!.
  - done.
  - by rewrite Htwice.
  - intros Hnone%findContainer_None.
    unfold handleDelete, setTasks. rewrite (Hid _ Hnone). by destruct st.
Qed.

(** A board on which two tasks carry the id that is deleted, and an id
    that no task carries. *)
Lemma handleDelete_absent_witness :
  let st := board [T "T1" Todo; T "T2" Todo; T "T1" Done] in
  tasks (handleDelete st "T1") = [T "T2" Todo] ∧
  handleDelete (handleDelete st "T1") "T1" = handleDelete st "T1" ∧
  handleDelete st "T9" = st.
Proof.
  intros st. split_and!.
  - reflexivity.
  - exact (proj1 (handleDelete_absent st "T1")).
  - refine (proj2 (proj2 (handleDelete_absent st "T9")) _). reflexivity.
Defined.

(** X13. Deleting the item that is being dragged does not end the
    gesture, the active id stays, but the overlay has no card to show and
    every later [DragOver] and [DragEnd] of that item leaves the tasks as
    the deletion left them. *)
Theorem deleted_active_is_inert (st : State) (a : string) (over : option string) :
  let st' := handleDelete st a in
  activeId st' = activeId st ∧
  renderTaskOverlay a (tasks st') = None ∧
  (activeId st = Some a → dragOverlay st' = None) ∧
  handleDragOver st' a over = st' ∧
  tasks (handleDragEnd st' a over) = tasks st'.
Proof.
  intros st'.
  assert (Hfind : list_find (λ task, id task = a) (tasks st') = None)
    by apply list_find_filter_eq.
  assert (Hc : findContainer (tasks st') a = None) by (by apply findContainer_None).
  split_and!.
  - done.
  - unfold renderTaskOverlay, find. by rewrite Hfind.
  - intros Hact. unfold dragOverlay. change (activeId st') with (activeId st).
    rewrite Hact. case_decide; [done|]. unfold renderTaskOverlay, find. by rewrite Hfind.
  - unfold handleDragOver. rewrite Hc. by destruct over.
  - unfold handleDragEnd. rewrite Hc. by destruct over.
Qed.

Lemma deleted_active_is_inert_witness :
  let st := handleDragStart (board [T "T1" Todo; T "T2" Done]) "T1" in
  dragOverlay st = Some (T "T1" Todo) ∧
  dragOverlay (handleDelete st "T1") = None.
Proof.
  intros st. split; [reflexivity|].
  refine (proj1 (proj2 (proj2 (deleted_active_is_inert st "T1" None))) _).
  reflexivity.
Defined.

(** ** Saving a new task *)

Lemma find_snoc (ts : list Task) (t : Task) (j : string) :
  snd <$> list_find (λ task, id task = j) (ts ++ [t])
  = match snd <$> list_find (λ task, id task = j) ts with
    | Some t' => Some t'
    | None => if decide (id t = j) then Some t else None
    end.
Proof.
  destruct (list_find (λ task, id task = j) ts) as [[k t']|] eqn:Hfind.
  - by rewrite (list_find_app_l _ ts [t] k t' Hfind).
  - rewrite (list_find_app_r _ ts [t] Hfind). simpl. by case_decide.
Qed.

Lemma findContainer_snoc (ts : list Task) (t : Task) (j : string) :
  findContainer (ts ++ [t]) j
  = match findContainer ts j with
    | Some c => Some c
    | None => if decide (id t = j) then Some (status t) else None
    end.
Proof.
  unfold findContainer, find. rewrite find_snoc.
  destruct (list_find _ ts) as [[k t']|]; simpl; [done|]. by case_decide.
Qed.

(** X14. After [handleSaveNewTask] an id that a task of the board
    already carried resolves as before, also when the new task was given
    that same id: the new task is looked up only under an id that no task
    had. *)
Theorem handleSaveNewTask_lookup
    (st : State) (taskData : TaskData) (now : Clock) (j : string) :
  findContainer (tasks (handleSaveNewTask st taskData now)) j
  = match findContainer (tasks st) j with
    | Some c => Some c
    | None => if decide (pretty (now_ms now) = j)
              then Some (data_status taskData) else None
    end.
Proof.
  unfold handleSaveNewTask. simpl. by rewrite findContainer_snoc.
Qed.

(** X15. A task saved from a column is appended to the backing sequence
    with the id of that column as its status, whatever status came with
    the form data: it is displayed last in that column, the other
    columns display what they displayed, and the editing mode is closed
    while the active id is kept. *)
Theorem Column_onSave_views
    (st : State) (columnId : Status) (task : TaskData) (now : Clock) :
  let st' := Column_onSave st columnId task now in
  ∃ t,
    tasks st' = tasks st ++ [t] ∧
    id t = pretty (now_ms now) ∧
    status t = columnId ∧
    title t = data_title task ∧
    description t = data_description task ∧
    priority t = data_priority task ∧
    (∀ c, column c (tasks st')
          = column c (tasks st) ++ (if decide (columnId = c) then [t] else [])) ∧
    editingStatus st' = None ∧
    activeId st' = activeId st.
Proof.
  intros st'. eexists. split; [reflexivity|]. split_and!; try done.
  intros c. unfold st', Column_onSave, handleSaveNewTask, column. simpl.
  rewrite filter_app. by f_equal.
Qed.

(** X16. Two new tasks have the same id exactly when [Date.now()] gave
    the same number for both. *)
Theorem newTask_id_clock (d1 d2 : TaskData) (now1 now2 : Clock) :
  id (newTask d1 now1) = id (newTask d2 now2) ↔ now_ms now1 = now_ms now2.
Proof.
  simpl. split.
  - apply (inj pretty).
  - by intros ->.
Qed.

(** X17. Two tasks saved within the same millisecond share their id:
    the ids of the board are no longer all different, the id resolves to
    the first of the two only, and one [handleDelete] removes both. *)
Theorem save_twice_same_millisecond (st : State) (d1 d2 : TaskData) (now : Clock) :
  let st2 := handleSaveNewTask (handleSaveNewTask st d1 now) d2 now in
  let i := pretty (now_ms now) in
  ¬ NoDup (id <$> tasks st2) ∧
  findContainer (tasks st2) i = findContainer (tasks (handleSaveNewTask st d1 now)) i ∧
  tasks (handleDelete st2 i) = tasks (handleDelete st i).
Proof.
  intros st2 i. split_and!.
  - unfold st2, handleSaveNewTask. simpl.
    rewrite !fmap_app. simpl. rewrite <- app_assoc. simpl.
    intros (_ & _ & Hnd)%NoDup_app.
    apply NoDup_cons in Hnd as [Hin _]. apply Hin. by left.
  - unfold st2, handleSaveNewTask. simpl. rewrite !findContainer_snoc. simpl.
    destruct (findContainer (tasks st) i); [done|].
    by rewrite decide_True.
  - unfold st2, handleDelete, handleSaveNewTask. simpl.
    rewrite !filter_app.
    rewrite !filter_cons_False by (intros Hne; by apply Hne).
    by rewrite filter_nil, !app_nil_r.
Qed.

(** ** Invariants of the board *)

Lemma resolveOver_not_failed (ts : list Task) (o : string) (oc : Status) :
  no_failed ts → o ≠ "failed" → resolveOver ts o = Some oc → oc ≠ Failed.
Proof.
  intros Hnf Ho. unfold resolveOver.
  destruct (container_of_id o) as [c|] eqn:Hc.
  - intros [= <-] ->. apply container_of_id_status_id in Hc. by apply Ho.
  - intros (i & t & Hfind & <-)%findContainer_Some.
    apply list_find_Some in Hfind as (Hi & _).
    unfold no_failed in Hnf. rewrite Forall_lookup in Hnf. eauto.
Qed.

Lemma moveAcross_no_failed (ts : list Task) (a : string) (oc : Status) :
  no_failed ts → oc ≠ Failed → no_failed (moveAcross ts a oc).
Proof.
  intros Hnf Hoc. unfold moveAcross.
  destruct (list_find _ ts) as [[i t]|]; [|done].
  by apply Forall_insert.
Qed.

Lemma no_failed_step (st : State) (act : Action) :
  no_failed (tasks st) → on_screen act → no_failed (tasks (dispatch st act)).
Proof.
  intros Hnf Hscreen.
  destruct act as [[a | a [o|] | a [o|]] | i | c | col task now]; simpl in *; try done.
  - unfold handleDragOver.
    destruct (findContainer (tasks st) a) as [ac|]; [|done].
    destruct (resolveOver (tasks st) o) as [oc|] eqn:Hoc; [|done].
    case_decide; [done|]. simpl. apply moveAcross_no_failed; [done|].
    eapply resolveOver_not_failed; [done| |done]. congruence.
  - unfold handleDragEnd.
    destruct (findContainer (tasks st) a) as [ac|]; [|done].
    destruct (resolveOver (tasks st) o) as [oc|] eqn:Hoc; [|done].
    case_decide; simpl.
    + apply moveAcross_no_failed; [done|].
      eapply resolveOver_not_failed; [done| |done]. congruence.
    + unfold no_failed. by rewrite reorder_Permutation.
  - unfold no_failed. apply Forall_forall.
    intros t [_ Ht]%list_elem_of_filter.
    unfold no_failed in Hnf. rewrite Forall_forall in Hnf. eauto.
  - unfold no_failed. apply Forall_app. split; [done|].
    apply Forall_singleton. simpl. intros ->.
    unfold columns in Hscreen.
    repeat (apply elem_of_cons in Hscreen as [Hscreen|Hscreen]; [done|]).
    by apply elem_of_nil in Hscreen.
Qed.

(** X18. Nothing on screen can make a task [failed]: starting from a
    board without failed tasks, after any sequence of drags that are
    never over a droppable called [failed], deletions, openings of the
    form and saves from the three columns, no task is failed, and so
    every task is displayed, once, in one of the three columns. *)
Theorem dispatch_no_failed (st : State) (acts : list Action) :
  no_failed (tasks st) →
  Forall on_screen acts →
  let st' := foldl dispatch st acts in
  no_failed (tasks st') ∧
  todoTasks (tasks st') ++ inProgressTasks (tasks st') ++ doneTasks (tasks st')
  ≡ₚ tasks st'.
Proof.
  intros Hnf Hacts st'.
  assert (Hnf' : no_failed (tasks st')).
  { unfold st'. clear st'. revert st Hnf.
    induction Hacts as [|act acts Hact _ IH]; intros st Hnf; [done|].
    simpl. apply IH. by apply no_failed_step. }
  split; [done|].
  rewrite columns_Permutation. by rewrite filter_all.
Qed.

Lemma dispatch_no_failed_witness :
  let st := board [T "T1" Todo; T "T2" InProgress] in
  let acts := [Drag (DragStart "T1"); Drag (DragOver "T1" (Some "done"));
               Drag (DragEnd "T1" (Some "done")); Delete "T2";
               AddTask (Some Todo);
               SaveTask Todo (mkTaskData "T3" EmptyString Low Failed)
                        (mkClock 1700000000000 "Nov" 14%nat 22%nat 13%nat)] in
  no_failed (tasks (foldl dispatch st acts)).
Proof.
  intros st acts.
  refine (proj1 (dispatch_no_failed st acts _ _)).
  - repeat constructor; discriminate.
  - repeat constructor; try discriminate.
Defined.

Lemma step_ids (st : State) (ev : Event) :
  id <$> tasks (step st ev) ≡ₚ id <$> tasks st.
Proof.
  assert (Hid : ∀ ts : list Task, id <$> ts = id <$> (unclassified <$> ts)).
  { intros ts. rewrite <- list_fmap_compose. by apply list_fmap_ext. }
  rewrite (Hid (tasks (step st ev))), (Hid (tasks st)).
  by rewrite step_unclassified.
Qed.

(** X19. The ids of the board stay all different under every action,
    provided a save is given an id that no task of the board carries:
    drags only rearrange, a deletion only removes. *)
Theorem dispatch_unique_ids (st : State) (act : Action) :
  NoDup (id <$> tasks st) →
  fresh_id st act →
  NoDup (id <$> tasks (dispatch st act)).
Proof.
  intros Hnd Hfresh. destruct act as [ev | i | c | col task now]; simpl in *.
  - by rewrite step_ids.
  - eapply sublist_NoDup; [done|]. apply fmap_sublist, sublist_filter.
  - done.
  - rewrite fmap_app. apply NoDup_app. split_and!; [done| |apply NoDup_singleton].
    intros j Hj ->%list_elem_of_singleton. by apply Hfresh.
Qed.

Lemma dispatch_unique_ids_witness :
  NoDup (id <$> tasks (dispatch (board [T "T1" Todo; T "T2" InProgress])
    (SaveTask Todo (mkTaskData "T3" EmptyString Low Todo)
              (mkClock 1700000000000 "Nov" 14%nat 22%nat 13%nat)))).
Proof.
  refine (dispatch_unique_ids _ _ _ _).
  - apply (bool_decide_unpack _). vm_compute. exact I.
  - simpl. apply (bool_decide_unpack _). vm_compute. exact I.
Defined.

(** ** The timestamp of a new task *)

Lemma padStart_two_digits (n : nat) :
  (n < 100)%nat →
  padStart (pretty n) 2 "0"
  = (if decide (n < 10)%nat then "0" +:+ pretty n else pretty n) ∧
  String.length (padStart (pretty n) 2 "0") = 2%nat.
Proof.
  intros Hn.
  assert (Hall : Forall (λ n : nat,
            padStart (pretty n) 2 "0"
            = (if decide (n < 10)%nat then "0" +:+ pretty n else pretty n) ∧
            String.length (padStart (pretty n) 2 "0") = 2%nat) (seq 0 100)).
  { apply (bool_decide_unpack _). vm_compute. exact I. }
  rewrite Forall_forall in Hall. apply Hall, elem_of_seq. lia.
Qed.

(** X20. For the hours and minutes a clock can give, the task that
    [handleSaveNewTask] appends carries as its timestamp the month name,
    the day of the month, and the time written with two digits each for
    the hour and the minute, a single digit getting a leading zero. *)
Theorem formatTimestamp_shape (st : State) (taskData : TaskData) (now : Clock) :
  (getHours now < 24)%nat →
  (getMinutes now < 60)%nat →
  let two (n : nat) := if decide (n < 10)%nat then "0" +:+ pretty n else pretty n in
  let written :=
    now_month now +:+ " " +:+ pretty (getDate now) +:+ ", "
    +:+ two (getHours now) +:+ ":" +:+ two (getMinutes now) in
  (∃ t, tasks (handleSaveNewTask st taskData now) = tasks st ++ [t] ∧
        timestamp t = Some written) ∧
  timestamp <$> last (tasks (handleSaveNewTask st taskData now)) = Some (Some written) ∧
  timestamp (newTask taskData now) = Some written ∧
  formatTimestamp now = written ∧
  String.length (two (getHours now)) = 2%nat ∧
  String.length (two (getMinutes now)) = 2%nat.
Proof.
  intros Hh Hm two written.
  destruct (padStart_two_digits (getHours now)) as [Eh Lh]; [lia|].
  destruct (padStart_two_digits (getMinutes now)) as [Em Lm]; [lia|].
  assert (Hw : formatTimestamp now = written).
  { unfold formatTimestamp, written, two. by rewrite <- Eh, <- Em. }
  assert (Hl1 : String.length (two (getHours now)) = 2%nat)
    by (unfold two; by rewrite <- Eh).
  assert (Hl2 : String.length (two (getMinutes now)) = 2%nat)
    by (unfold two; by rewrite <- Em).
  assert (Ht : timestamp (newTask taskData now) = Some written)
    by (simpl; by rewrite Hw).
  split_and!; try done.
  - exists (newTask taskData now). by split.
  - unfold handleSaveNewTask. simpl. rewrite last_snoc. simpl. by rewrite Hw.
Qed.

Lemma formatTimestamp_shape_witness :
  timestamp <$> last (tasks (handleSaveNewTask
      (board [T "T1" Todo])
      (mkTaskData "T2" EmptyString Low Todo)
      (mkClock 1700000000000 "Nov" 14%nat 9%nat 5%nat)))
  = Some (Some "Nov 14, 09:05").
Proof.
  refine (proj1 (proj2 (formatTimestamp_shape
    (board [T "T1" Todo])
    (mkTaskData "T2" EmptyString Low Todo)
    (mkClock 1700000000000 "Nov" 14%nat 9%nat 5%nat) _ _)));
    simpl; lia.
Defined.
